(** * Web-Article-Analyzer: the text analysis engine of [main.py]

    A shallow embedding of the pure part of [main.py]
    ([remove_stopwords_from_text], [count_syllables],
    [analyze_article_text]) and the properties its specification states,
    followed by the loaders ([read_word_list], [read_stopwords]), the
    retry loop and the text extraction of [download_article] and the
    clean-then-analyse steps of [main], with what the code shows of them.

    Modelling conventions.
    - A Python [str] is a [string]; a character is a code point in
      U+0000..U+00FF (the 8-bit [ascii] type read as Latin-1), and the
      character classes of [str.split], [str.lower], [str.isalpha],
      [str.isdigit] and of the regular expression class [\w] are written out
      for that range.  Where the case of characters beyond that range
      matters, [remove_stopwords_from_text] is given once more over any
      alphabet (module [Uni]), with [str.lower] a function of the string,
      and run on an alphabet that has U+2102 (module [Wide]).
    - A Python [int] is a [Z].  A Python [float] is an exact rational [Q]
      in [analyze_article_text]: [/] is exact division and [round(x, 3)]
      rounds the exact value to the nearest multiple of 1/1000, ties to
      even.  The record of the program can differ from the record of this
      model in the last place of a rounded field, where the binary64 value
      and the exact value fall on the two sides of a rounding boundary;
      the readability values are given in binary64 as well (module [B64]).
    - Exceptions are values of [res]: [/] raises [ZeroDivisionError] on a
      zero divisor, indexing raises [IndexError] out of range.
    - The NLTK tokenizers and the CMU pronunciation dictionary are not part
      of the program: the tokenizers are parameters
      ([sent_tokenize], [word_tokenize]) and the dictionary is the
      module-level variable [pronunciation_dict], a parameter too. *)

From Stdlib Require Import Ascii String QArith Qround Lia Lqa.
From Stdlib Require Floats Uint63.
From stdpp Require Import gmap strings list.

Local Open Scope string_scope.
Local Open Scope Z_scope.

(** ** Characters and strings *)

Module Py.

Definition ord (c : ascii) : N := N_of_ascii c.

Definition in_range (lo hi : N) (c : ascii) : bool :=
  ((lo <=? ord c) && (ord c <=? hi))%N.

(** Whitespace of [str.split()] and [str.isspace()]:
    U+0009..U+000D, U+001C..U+0020, U+0085, U+00A0. *)
Definition isspace (c : ascii) : bool :=
  in_range 0x09 0x0D c || in_range 0x1C 0x20 c
  || (ord c =? 0x85)%N || (ord c =? 0xA0)%N.

(** Upper-case letters: A-Z, U+00C0..U+00D6, U+00D8..U+00DE. *)
Definition isupper_char (c : ascii) : bool :=
  in_range 0x41 0x5A c || in_range 0xC0 0xD6 c || in_range 0xD8 0xDE c.

(** Letters: A-Z, a-z, U+00AA, U+00B5, U+00BA, U+00C0..U+00D6,
    U+00D8..U+00F6, U+00F8..U+00FF. *)
Definition isalpha_char (c : ascii) : bool :=
  in_range 0x41 0x5A c || in_range 0x61 0x7A c
  || (ord c =? 0xAA)%N || (ord c =? 0xB5)%N || (ord c =? 0xBA)%N
  || in_range 0xC0 0xD6 c || in_range 0xD8 0xF6 c || in_range 0xF8 0xFF c.

(** [str.isdigit]: 0-9 and the superscripts U+00B2, U+00B3, U+00B9. *)
Definition isdigit_char (c : ascii) : bool :=
  in_range 0x30 0x39 c
  || (ord c =? 0xB2)%N || (ord c =? 0xB3)%N || (ord c =? 0xB9)%N.

(** [str.isnumeric] adds the vulgar fractions U+00BC..U+00BE. *)
Definition isnumeric_char (c : ascii) : bool :=
  isdigit_char c || in_range 0xBC 0xBE c.

Definition isalnum_char (c : ascii) : bool :=
  isalpha_char c || isnumeric_char c.

(** The lower-case mapping: every upper-case letter of the range has its
    lower-case form 0x20 above it.  (Beyond the range [str.lower] is not
    a map of characters, and there are upper-case letters that it leaves
    as they are.) *)
Definition tolower (c : ascii) : ascii :=
  if isupper_char c then ascii_of_N (ord c + 0x20) else c.

Fixpoint map_chars (f : ascii → ascii) (s : string) : string :=
  match s with
  | EmptyString => EmptyString
  | String c s' => String (f c) (map_chars f s')
  end.

Fixpoint all_chars (p : ascii → bool) (s : string) : bool :=
  match s with
  | EmptyString => true
  | String c s' => p c && all_chars p s'
  end.

Fixpoint any_char (p : ascii → bool) (s : string) : bool :=
  match s with
  | EmptyString => false
  | String c s' => p c || any_char p s'
  end.

(** [s.lower()] *)
Definition lower (s : string) : string := map_chars tolower s.

(** [s.isalpha()]: at least one character, all of them letters. *)
Definition isalpha (s : string) : bool :=
  match s with
  | EmptyString => false
  | _ => all_chars isalpha_char s
  end.

(** [c in s] for a single character [c]. *)
Definition char_in (c : ascii) (s : string) : bool :=
  any_char (Ascii.eqb c) s.

(** [len(s)] and [len(l)] *)
Definition len_str (s : string) : Z := Z.of_nat (String.length s).
Definition len {A} (l : list A) : Z := Z.of_nat (length l).

(** The maximal runs of characters that are not separators, in order:
    [cur] is the run being read. *)
Definition flush (cur : string) : list string :=
  match cur with
  | EmptyString => []
  | _ => [cur]
  end.

Fixpoint fields_go (sep : ascii → bool) (cur : string) (s : string)
  : list string :=
  match s with
  | EmptyString => flush cur
  | String c s' =>
      if sep c then flush cur ++ fields_go sep EmptyString s'
      else fields_go sep (cur +:+ String c EmptyString) s'
  end.

Definition fields (sep : ascii → bool) (s : string) : list string :=
  fields_go sep EmptyString s.

(** A token of [fields sep]: not empty, no separator in it. *)
Definition sep_free (sep : ascii → bool) (s : string) : bool :=
  all_chars (λ c, negb (sep c)) s.

Definition is_token (sep : ascii → bool) (s : string) : Prop :=
  s ≠ EmptyString ∧ sep_free sep s = true.

(** [s.split()]: split on runs of whitespace, no empty strings. *)
Definition split (s : string) : list string := fields isspace s.

(** [sep.join(l)] *)
Definition join (sep : string) (l : list string) : string :=
  String.concat sep l.

(** [s[-1]] *)
Fixpoint last_char (s : string) : option ascii :=
  match s with
  | EmptyString => None
  | String c EmptyString => Some c
  | String _ s' => last_char s'
  end.

(** The last character of [s], or [prev] when [s] is empty. *)
Definition last_or (prev : option ascii) (s : string) : option ascii :=
  match last_char s with
  | Some c => Some c
  | None => prev
  end.

Definition head_char (s : string) : option ascii :=
  match s with
  | EmptyString => None
  | String c _ => Some c
  end.

(** [s.lstrip()], [s.rstrip()] and [s.strip()]: without the whitespace
    at the ends. *)
Fixpoint lstrip (s : string) : string :=
  match s with
  | EmptyString => EmptyString
  | String c s' => if isspace c then lstrip s' else s
  end.

Fixpoint rstrip (s : string) : string :=
  match s with
  | EmptyString => EmptyString
  | String c s' =>
      match rstrip s' with
      | EmptyString => if isspace c then EmptyString else String c EmptyString
      | r => String c r
      end
  end.

Definition strip (s : string) : string := rstrip (lstrip s).

(** [s.startswith(prefix)] and [s.endswith(suffix)] *)
Definition startswith (s prefix : string) : bool := String.prefix prefix s.

Definition endswith (s suffix : string) : bool :=
  let n := String.length s in
  let m := String.length suffix in
  (m <=? n)%nat && String.eqb (substring (n - m) m s) suffix.

(** The string of one line feed. *)
Definition newline : string := String "010" EmptyString.

End Py.

(** ** Exceptions *)

Inductive exn : Set := ZeroDivisionError | IndexError.

Inductive res (A : Type) : Type :=
  | Ok (a : A)
  | Raise (e : exn).
Arguments Ok {A} a.
Arguments Raise {A} e.

#[global] Instance res_ret : MRet res := λ A, Ok.
#[global] Instance res_bind : MBind res := λ A B f m,
  match m with
  | Ok a => f a
  | Raise e => Raise e
  end.

(** [a / b] on integers: true division. *)
Definition truediv (a b : Z) : res Q :=
  if b =? 0 then Raise ZeroDivisionError
  else Ok (inject_Z a / inject_Z b)%Q.

(** [l[0]] *)
Definition index0 {A} (l : list A) : res A :=
  match l with
  | [] => Raise IndexError
  | x :: _ => Ok x
  end.

(** [round(x, ndigits)] for [ndigits >= 0]: nearest multiple of
    [10 ** -ndigits], ties to the even multiple. *)
Definition round_half_even (q : Q) : Z :=
  let f := Qfloor q in
  match (q - inject_Z f ?= 1 # 2)%Q with
  | Lt => f
  | Gt => f + 1
  | Eq => if Z.even f then f else f + 1
  end.

Definition round (number : Q) (ndigits : Z) : Q :=
  let m := inject_Z (10 ^ ndigits) in
  (inject_Z (round_half_even (number * m)) / m)%Q.

(** ** The program *)

(** The metric record: the dictionary [analyze_article_text] returns, one
    field per key (the key's spaces written as underscores). *)
Record MetricRecord : Type := {
  POSITIVE_SCORE : Z;
  NEGATIVE_SCORE : Z;
  POLARITY_SCORE : Q;
  SUBJECTIVITY_SCORE : Q;
  AVG_SENTENCE_LENGTH : Q;
  PERCENTAGE_OF_COMPLEX_WORDS : Q;
  FOG_INDEX : Q;
  AVG_NUMBER_OF_WORDS_PER_SENTENCE : Q;
  COMPLEX_WORD_COUNT : Z;
  WORD_COUNT : Z;
  SYLLABLE_PER_WORD : Q;
  PERSONAL_PRONOUNS : Z;
  AVG_WORD_LENGTH : Q
}.

(** What [analyze_article_text] returns: the empty dictionary [{}] or the
    dictionary with the thirteen keys. *)
Inductive report : Type :=
  | Insufficient
  | Full (r : MetricRecord).

(** *** [remove_stopwords_from_text] *)

(** The body of the [for word in words] loop: [clean_words.append(word)]
    when [word.lower() not in stopwords]. *)
Definition keep_word (stopwords : list string) (word : string) : bool :=
  negb (bool_decide (Py.lower word ∈ stopwords)).

Definition remove_step (stopwords : list string)
    (clean_words : list string) (word : string) : list string :=
  if keep_word stopwords word then clean_words ++ [word] else clean_words.

Definition remove_stopwords_from_text (text : string)
    (stopwords : list string) : string :=
  let words := Py.split text in
  let clean_words := fold_left (remove_step stopwords) words [] in
  Py.join " " clean_words.

(** *** The regular expression [\b(I|we|my|ours|us)\b] with [re.IGNORECASE] *)

Module Re.

(** [\w]: alphanumeric or underscore. *)
Definition is_word_char (c : ascii) : bool :=
  Py.isalnum_char c || Ascii.eqb c "_".

Definition is_w (o : option ascii) : bool :=
  match o with
  | Some c => is_word_char c
  | None => false
  end.

(** [\b] between the character before the position ([prev], [None] at
    the start of the text) and the one at it ([next], [None] at the end). *)
Definition at_boundary (prev next : option ascii) : bool :=
  xorb (is_w prev) (is_w next).

(** A literal under IGNORECASE, read from the subject [s]; the result is
    the last character read and the rest of the subject.  Within
    U+0000..U+00FF two characters match when their lower-case forms are
    equal; beyond it U+0130 and U+0131 match [i] and U+017F matches [s]
    as well, one character of the subject for one of the literal. *)
Fixpoint match_literal (lit : string) (prev : option ascii) (s : string)
  : option (option ascii * string) :=
  match lit with
  | EmptyString => Some (prev, s)
  | String p lit' =>
      match s with
      | EmptyString => None
      | String c s' =>
          if Ascii.eqb (Py.tolower c) (Py.tolower p)
          then match_literal lit' (Some c) s'
          else None
      end
  end.

Definition alternatives : list string := ["I"; "we"; "my"; "ours"; "us"].

(** The group [(I|we|my|ours|us)] followed by [\b]: the alternatives are
    tried in order, the next one when the literal or the [\b] after it
    fails.  The result is the length of the match. *)
Fixpoint match_alternatives (alts : list string) (prev : option ascii)
    (s : string) : option nat :=
  match alts with
  | [] => None
  | lit :: alts' =>
      match match_literal lit prev s with
      | Some (prev', rest) =>
          if at_boundary prev' (Py.head_char rest)
          then Some (String.length lit)
          else match_alternatives alts' prev s
      | None => match_alternatives alts' prev s
      end
  end.

(** The whole pattern, tried at one position. *)
Definition match_at (prev : option ascii) (s : string) : option nat :=
  if at_boundary prev (Py.head_char s)
  then match_alternatives alternatives prev s
  else None.

(** [re.findall]: the scan from left to right; after a match of length
    [n] the search goes on at its end, so the next [n - 1] positions are
    skipped ([skip]). *)
Fixpoint findall_go (prev : option ascii) (s : string) (skip : nat)
  : list string :=
  match s with
  | EmptyString => []
  | String c s' =>
      match skip with
      | S k => findall_go (Some c) s' k
      | O =>
          match match_at prev s with
          | Some n => substring 0 n s :: findall_go (Some c) s' (n - 1)
          | None => findall_go (Some c) s' 0
          end
      end
  end.

Definition findall (text : string) : list string :=
  findall_go None text 0.

(** [s] begins with [k] word characters (the invariant of a skip). *)
Fixpoint word_prefix (k : nat) (s : string) : bool :=
  match k with
  | O => true
  | S k' =>
      match s with
      | EmptyString => false
      | String c s' => is_word_char c && word_prefix k' s'
      end
  end.

End Re.

Section Program.

(** [nltk.sent_tokenize] and [nltk.word_tokenize] *)
Variable sent_tokenize : string → list string.
Variable word_tokenize : string → list string.

(** The module-level [pronunciation_dict]: [cmudict.dict()], or [{}]. *)
Variable pronunciation_dict : gmap string (list (list string)).

(** *** [count_syllables] *)

(** [[sound for sound in variant if sound[-1].isdigit()]] *)
Fixpoint stressed_sounds (variant : list string) : res (list string) :=
  match variant with
  | [] => Ok []
  | sound :: rest =>
      match Py.last_char sound with
      | None => Raise IndexError
      | Some c =>
          sounds ← stressed_sounds rest;
          Ok (if Py.isdigit_char c then sound :: sounds else sounds)
      end
  end.

Definition vowels : string := "aeiouy".

(** The [for char in word] loop on the state [(count, prev_was_vowel)]. *)
Fixpoint vowel_loop (count : Z) (prev_was_vowel : bool) (word : string)
  : Z :=
  match word with
  | EmptyString => count
  | String char rest =>
      if Py.char_in char vowels then
        vowel_loop (if negb prev_was_vowel then count + 1 else count)
                   true rest
      else vowel_loop count false rest
  end.

Definition count_syllables (word : string) : res Z :=
  let word := Py.lower word in
  match pronunciation_dict !! word with
  | Some variants =>
      variant ← index0 variants;
      sounds ← stressed_sounds variant;
      Ok (Py.len sounds)
  | None => Ok (Z.max 1 (vowel_loop 0 false word))
  end.

(** *** [analyze_article_text] *)

(** The first [for word in clean_words] loop, on
    [(positive_count, negative_count)]. *)
Definition sentiment_step (positive_words negative_words : gset string)
    (st : Z * Z) (word : string) : Z * Z :=
  let '(positive_count, negative_count) := st in
  let word_lower := Py.lower word in
  let positive_count :=
    if bool_decide (word_lower ∈ positive_words)
    then positive_count + 1 else positive_count in
  let negative_count :=
    if bool_decide (word_lower ∈ negative_words)
    then negative_count + 1 else negative_count in
  (positive_count, negative_count).

(** The second loop, on [(complex_word_count, total_syllables)]. *)
Fixpoint syllable_loop (clean_words : list string) (st : Z * Z)
  : res (Z * Z) :=
  match clean_words with
  | [] => Ok st
  | word :: rest =>
      let '(complex_word_count, total_syllables) := st in
      syllables ← count_syllables word;
      let total_syllables := total_syllables + syllables in
      let complex_word_count :=
        if 2 <? syllables then complex_word_count + 1
        else complex_word_count in
      syllable_loop rest (complex_word_count, total_syllables)
  end.

(** [sum(len(word) for word in clean_words)] *)
Definition total_chars (clean_words : list string) : Z :=
  fold_left (λ acc word, acc + Py.len_str word) clean_words 0.

Definition analyze_article_text (text : string)
    (positive_words negative_words : gset string) : res report :=
  let sentences := sent_tokenize text in
  let words := word_tokenize text in
  let clean_words := filter (λ word, Is_true (Py.isalpha word)) words in
  let word_count := Py.len clean_words in
  let sentence_count := Py.len sentences in
  if (word_count =? 0) || (sentence_count =? 0) then Ok Insufficient
  else
    let '(positive_count, negative_count) :=
      fold_left (sentiment_step positive_words negative_words)
                clean_words (0, 0) in
    let total_sentiment_words := positive_count + negative_count in
    '(polarity, subjectivity) ←
      (if 0 <? total_sentiment_words then
         polarity ← truediv (positive_count - negative_count)
                            total_sentiment_words;
         subjectivity ← truediv total_sentiment_words word_count;
         Ok (polarity, subjectivity)
       else Ok (0%Q, 0%Q));
    avg_sentence_length ← truediv word_count sentence_count;
    '(complex_word_count, total_syllables) ←
      syllable_loop clean_words (0, 0);
    ratio ← truediv complex_word_count word_count;
    let percentage_complex := (ratio * 100)%Q in
    let fog_index :=
      ((4 # 10) * (avg_sentence_length + percentage_complex))%Q in
    avg_syllables_per_word ← truediv total_syllables word_count;
    let personal_pronouns := Py.len (Re.findall text) in
    avg_word_length ← truediv (total_chars clean_words) word_count;
    Ok (Full {|
      POSITIVE_SCORE := positive_count;
      NEGATIVE_SCORE := negative_count;
      POLARITY_SCORE := round polarity 3;
      SUBJECTIVITY_SCORE := round subjectivity 3;
      AVG_SENTENCE_LENGTH := round avg_sentence_length 3;
      PERCENTAGE_OF_COMPLEX_WORDS := round percentage_complex 3;
      FOG_INDEX := round fog_index 3;
      AVG_NUMBER_OF_WORDS_PER_SENTENCE := round avg_sentence_length 3;
      COMPLEX_WORD_COUNT := complex_word_count;
      WORD_COUNT := word_count;
      SYLLABLE_PER_WORD := round avg_syllables_per_word 3;
      PERSONAL_PRONOUNS := personal_pronouns;
      AVG_WORD_LENGTH := round avg_word_length 3
    |}).

End Program.

(** The record in closed form, from the counts the loops leave:
    [P], [N] sentiment words, [W] clean words, [S] sentences, [C] complex
    words, [T] syllables, [PR] pronoun matches, [CH] characters. *)
Definition metric_record (P N W S C T PR CH : Z) : MetricRecord :=
  let avg_sentence_length := (inject_Z W / inject_Z S)%Q in
  let percentage_complex := (inject_Z C / inject_Z W * 100)%Q in
  {| POSITIVE_SCORE := P;
     NEGATIVE_SCORE := N;
     POLARITY_SCORE :=
       round (if 0 <? P + N then inject_Z (P - N) / inject_Z (P + N)
              else 0)%Q 3;
     SUBJECTIVITY_SCORE :=
       round (if 0 <? P + N then inject_Z (P + N) / inject_Z W else 0)%Q 3;
     AVG_SENTENCE_LENGTH := round avg_sentence_length 3;
     PERCENTAGE_OF_COMPLEX_WORDS := round percentage_complex 3;
     FOG_INDEX :=
       round ((4 # 10) * (avg_sentence_length + percentage_complex))%Q 3;
     AVG_NUMBER_OF_WORDS_PER_SENTENCE := round avg_sentence_length 3;
     COMPLEX_WORD_COUNT := C;
     WORD_COUNT := W;
     SYLLABLE_PER_WORD := round (inject_Z T / inject_Z W)%Q 3;
     PERSONAL_PRONOUNS := PR;
     AVG_WORD_LENGTH := round (inject_Z CH / inject_Z W)%Q 3 |}.

(** ** The specification's wording, as definitions of its own *)

Module Spec.

(** Stopword removal: split on whitespace, drop the tokens whose
    lower-cased form is a stopword, join with single spaces. *)
Definition removeStopwords (text : string) (stopwords : list string)
  : string :=
  Py.join " "
    (filter (λ token, Py.lower token ∉ stopwords) (Py.split text)).

Definition is_vowel (c : ascii) : bool := Py.char_in c "aeiouy".

(** The maximal runs of consecutive vowel characters of a word. *)
Definition vowel_runs (word : string) : list string :=
  Py.fields (λ c, negb (is_vowel c)) word.

(** A phoneme whose final character is a digit. *)
Definition final_is_digit (phoneme : string) : bool :=
  match Py.last_char phoneme with
  | Some c => Py.isdigit_char c
  | None => false
  end.

(** The pronunciation dictionary of the data model: every word has one
    or more variants, each a sequence of (non-empty) phoneme symbols. *)
Definition variant_ok (variant : list string) : bool :=
  forallb (λ phoneme, negb (String.eqb phoneme "")) variant.

Definition entry_ok (variants : list (list string)) : bool :=
  match variants with
  | [] => false
  | _ => forallb variant_ok variants
  end.

Definition dict_ok (dict : gmap string (list (list string))) : Prop :=
  map_Forall (λ _ variants, Is_true (entry_ok variants)) dict.

(** The syllable estimator, steps 1 to 4. *)
Definition syllables (dict : gmap string (list (list string)))
    (word : string) : Z :=
  let word := Py.lower word in
  match dict !! word with
  | Some variants =>
      Py.len (List.filter final_is_digit (hd [] variants))
  | None => Z.max 1 (Py.len (vowel_runs word))
  end.

(** A complex word: more than two syllables. *)
Definition is_complex (dict : gmap string (list (list string)))
    (word : string) : bool :=
  2 <? syllables dict word.

(** The complex words, the syllables and the sentiment words of a list
    of clean words. *)
Definition complexWordCount (dict : gmap string (list (list string)))
    (cleanWords : list string) : Z :=
  Py.len (List.filter (is_complex dict) cleanWords).

Definition totalSyllables (dict : gmap string (list (list string)))
    (cleanWords : list string) : Z :=
  fold_right (λ word acc, syllables dict word + acc) 0 cleanWords.

Definition score (lexicon : gset string) (cleanWords : list string) : Z :=
  Py.len (filter (λ word, Py.lower word ∈ lexicon) cleanWords).

(** Personal pronouns: the positions of the text where one of the
    pronouns stands as a whole word, compared without case: a word
    boundary before it, the pronoun's letters, a word boundary after. *)
Definition pronouns : list string := ["I"; "we"; "my"; "ours"; "us"].

Definition whole_word_at (p : string) (prev : option ascii) (s : string)
  : bool :=
  let n := String.length p in
  let found := substring 0 n s in
  Re.at_boundary prev (Py.head_char s)
  && String.eqb (Py.lower found) (Py.lower p)
  && Re.at_boundary (Py.last_char found) (String.get n s).

(** The same without the boundary before: the letters and the boundary
    after them. *)
Definition word_ends_at (p : string) (s : string) : bool :=
  let n := String.length p in
  let found := substring 0 n s in
  String.eqb (Py.lower found) (Py.lower p)
  && Re.at_boundary (Py.last_char found) (String.get n s).

Definition pronoun_at (prev : option ascii) (s : string) : bool :=
  existsb (λ p, whole_word_at p prev s) pronouns.

Fixpoint occurrences_go (prev : option ascii) (s : string) : nat :=
  match s with
  | EmptyString => 0%nat
  | String c s' =>
      ((if pronoun_at prev s then 1 else 0) + occurrences_go (Some c) s')%nat
  end.

Definition personalPronouns (text : string) : Z :=
  Z.of_nat (occurrences_go None text).

End Spec.

(** ** Stand-ins for the tokenizers, to run the engine on small texts

    On texts of plain words, single spaces and full stops these two
    functions find the sentences and the clean words that NLTK's
    tokenizers find: a sentence ends at a full stop, a word at a space or
    a full stop. *)

Module Sample.

Definition is_stop (c : ascii) : bool := Ascii.eqb c ".".

Definition sent_tokenize (text : string) : list string :=
  Py.fields is_stop text.

Definition word_tokenize (text : string) : list string :=
  Py.fields (λ c, Py.isspace c || is_stop c) text.

Definition cmu : gmap string (list (list string)) :=
  {[ "cat" := [["K"; "AE1"; "T"]];
     "hmm" := [["HH"; "M"]] ]}.


End Sample.

(** ** The loaders, the downloader and the steps of [main]

    Files and the network are not part of the program either: a function
    that reads takes what the read gives. *)

(** *** [read_word_list]

    [file] is [None] when [open] raises, and otherwise the lines that the
    iteration over the file yields before it ends or raises; in every case
    the function returns the words added so far.  The file is decoded by
    blocks: a byte that is not utf-8 makes the iteration raise when its
    block is decoded, so the lines yielded are those of the blocks before
    it, which need not be all the lines before the byte. *)
Definition word_list_step (words : gset string) (line : string)
  : gset string :=
  let word := Py.lower (Py.strip line) in
  if negb (String.eqb word "") && negb (Py.startswith word ";")
  then words ∪ {[word]}
  else words.

Definition read_word_list (file : option (list string)) : gset string :=
  match file with
  | Some lines => fold_left word_list_step lines ∅
  | None => ∅
  end.

(** *** [read_stopwords]

    A file of the folder, as the two reads see it: [f.read()] after
    [open(..., encoding="utf-8")] and after
    [open(..., encoding="latin-1")], [None] when [open] or [read] raises.
    The folder is the listing [os.listdir] returns, each name with its
    file; [read_stopwords] is the function from that listing on, and
    [read_stopwords_listing] below has the failure of [os.listdir] too. *)
Record text_file : Type := {
  read_utf8 : option string;
  read_latin1 : option string
}.

Definition stopwords_step (all_stopwords : list string)
    (entry : string * text_file) : option (list string) :=
  let '(filename, file) := entry in
  if Py.endswith filename ".txt" then
    match read_utf8 file with
    | Some content => Some (all_stopwords ++ Py.split content)%list
    | None =>
        content ← read_latin1 file;
        Some (all_stopwords ++ Py.split content)%list
    end
  else Some all_stopwords.

Fixpoint stopwords_loop (folder : list (string * text_file))
    (all_stopwords : list string) : option (list string) :=
  match folder with
  | [] => Some all_stopwords
  | entry :: rest =>
      all_stopwords ← stopwords_step all_stopwords entry;
      stopwords_loop rest all_stopwords
  end.

(** What the function reads of a file: the utf-8 text, or the latin-1
    text when the utf-8 read raises. *)
Definition decoded (file : text_file) : option string :=
  match read_utf8 file with
  | Some content => Some content
  | None => read_latin1 file
  end.

(** A text file of the folder with what the function reads of it. *)
Definition stopword_source (folder : list (string * text_file))
    (name : string) (file : text_file) (content : string) : Prop :=
  (name, file) ∈ folder ∧ Py.endswith name ".txt" = true
  ∧ decoded file = Some content.

(** [list(set(all_stopwords))]: the order of the result is the set's. *)
Definition read_stopwords (folder : list (string * text_file))
  : option (list string) :=
  all_stopwords ← stopwords_loop folder [];
  Some (elements (list_to_set all_stopwords : gset string)).

(** *** [download_article]

    The page as the function reads it from the parsed document, after the
    script, style, header, footer and nav tags are removed: the text of
    the first h1 tag, of the title tag, and of every p tag. *)
Record page : Type := {
  h1 : option string;
  title_tag : option string;
  paragraphs : list string
}.

(** What one [requests.get] with [raise_for_status] does: a response
    (parsed, [None] when the parsing raises), a [RequestException], or
    another exception. *)
Inductive outcome : Type :=
  | Response (parsed : option page)
  | RequestException
  | OtherException.

Definition max_retries : nat := 3.

(** How the [for attempt in range(max_retries)] loop is left. *)
Inductive loop_exit : Type :=
  | Broke (parsed : option page)
  | Returned
  | Failed
  | Fell_through.

(** The loop, with the number of requests it makes; [net attempt] is the
    outcome of the request of that attempt. *)
Fixpoint request_loop (net : nat → outcome) (attempts : list nat)
  : loop_exit * nat :=
  match attempts with
  | [] => (Fell_through, 0%nat)
  | attempt :: rest =>
      match net attempt with
      | Response parsed => (Broke parsed, 1%nat)
      | RequestException =>
          if (attempt =? max_retries - 1)%nat then (Returned, 1%nat)
          else let '(exit, n) := request_loop net rest in (exit, S n)
      | OtherException => (Failed, 1%nat)
      end
  end.

Definition get_title (p : page) : string :=
  match h1 p with
  | Some text => Py.strip text
  | None =>
      match title_tag p with
      | Some text => Py.strip text
      | None => ""
      end
  end.

(** The body of [for p in paragraphs]. *)
Definition paragraph_step (article_text : string) (p : string) : string :=
  let text := Py.strip p in
  if 20 <? Py.len_str text then article_text +:+ text +:+ Py.newline
  else article_text.

(** The result is [None] for [(None, None)]; the second component is
    the number of requests made. *)
Definition download_article (net : nat → outcome)
  : option (string * string) * nat :=
  match request_loop net (seq 0 max_retries) with
  | (Broke (Some p), n) =>
      let title := get_title p in
      let article_text := fold_left paragraph_step (paragraphs p) "" in
      (Some (title, article_text), n)
  | (_, n) => (None, n)
  end.

(** *** [save_article] and the steps of [main] on one article *)


(** What [save_article] writes: [f"{title}\n\n{text}"]. *)
Definition article_file (title text : string) : string :=
  title +:+ Py.newline +:+ Py.newline +:+ text.

(** Steps 4 and 6 of [main] on one article: the text of the article's
    file with the stopwords removed (the clean file), analysed. *)
Definition clean_and_analyze
    (sent_tokenize word_tokenize : string → list string)
    (pronunciation_dict : gmap string (list (list string)))
    (stopwords : list string) (positive_words negative_words : gset string)
    (original_text : string) : res report :=
  let clean_text := remove_stopwords_from_text original_text stopwords in
  analyze_article_text sent_tokenize word_tokenize pronunciation_dict
    clean_text positive_words negative_words.

(** A line of a word list file that gives a word: not blank and no
    comment, once trimmed. *)
Definition word_of_line (line word : string) : Prop :=
  word = Py.lower (Py.strip line)
  ∧ word ≠ "" ∧ Py.startswith word ";" = false.

(** The sum of the pronoun counts of the tokens of a list. *)
Definition pronouns_in (tokens : list string) : Z :=
  fold_right (λ token acc, Spec.personalPronouns token + acc) 0 tokens.

(** Small inputs to run the loaders on. *)
Module Demo.

Definition lexicon_lines : list string :=
  ["; Opinion Lexicon" +:+ Py.newline; Py.newline;
   "  Good " +:+ Py.newline; "a+" +:+ Py.newline; "GOOD"].

Definition generic : text_file :=
  {| read_utf8 := Some ("the  AND" +:+ Py.newline +:+ "of the");
     read_latin1 := Some ("the  AND" +:+ Py.newline +:+ "of the") |}.

Definition names : text_file :=
  {| read_utf8 := None; read_latin1 := Some "we  us" |}.

Definition folder : list (string * text_file) :=
  [("generic.txt", generic); ("notes.md", generic); ("names.txt", names)].



End Demo.

(** [read_stopwords] from the call of [os.listdir] on: [listing] is
    [None] when [os.listdir] raises (the folder is missing, say), which no
    [try] catches. *)
Definition read_stopwords_listing
    (listing : option (list (string * text_file))) : option (list string) :=
  folder ← listing;
  read_stopwords folder.

(** ** The readability values in binary64

    The values of lines 192, 204 and 205 and their rounding of lines
    221 to 223 as the interpreter computes them, on the kernel's binary64
    numbers: [word_count / sentence_count],
    [(complex_word_count / word_count) * 100] and
    [0.4 * (avg_sentence_length + percentage_complex)]. *)
Module B64.

Abbreviation float := PrimFloat.float.

(** [float(z)], exact for [0 <= z < 2 ** 53]. *)
Definition of_int (z : Z) : float := PrimFloat.of_uint63 (Uint63.of_Z z).

(** [a / b] on integers [0 <= a, b < 2 ** 53]: the quotient of the two
    exact conversions, correctly rounded. *)
Definition truediv (a b : Z) : float := PrimFloat.div (of_int a) (of_int b).



Definition avg_sentence_length (word_count sentence_count : Z) : float :=
  truediv word_count sentence_count.

Definition percentage_complex (complex_word_count word_count : Z) : float :=
  PrimFloat.mul (truediv complex_word_count word_count) (of_int 100).

(** The literal [0.4] is the binary64 number nearest to 4/10. *)
Definition fog_index (avg_sentence_length percentage_complex : float)
  : float :=
  PrimFloat.mul (truediv 4 10)
                (PrimFloat.add avg_sentence_length percentage_complex).

End B64.

(** The specification's [percentageComplex = 100 * complexWordCount /
    wordCount], in binary64: the product is one of integers. *)
Module Spec64.


End Spec64.


(** ** [remove_stopwords_from_text] over any alphabet

    The function once more, for strings of characters of any type:
    [isspace] is the whitespace of [str.split], [lower] is [str.lower] and
    [space] is the character of the separator [" "]. *)
Module Uni.

Section Alphabet.

Context {char : Type} `{EqDecision char}.
Variable isspace : char → bool.
Variable lower : list char → list char.
Variable space : char.

Definition flush (cur : list char) : list (list char) :=
  match cur with
  | [] => []
  | _ => [cur]
  end.

Fixpoint fields_go (cur : list char) (s : list char) : list (list char) :=
  match s with
  | [] => flush cur
  | c :: s' =>
      if isspace c then flush cur ++ fields_go [] s'
      else fields_go (cur ++ [c]) s'
  end.

(** [s.split()] *)
Definition split (s : list char) : list (list char) := fields_go [] s.

(** [" ".join(l)] *)
Fixpoint join (l : list (list char)) : list char :=
  match l with
  | [] => []
  | [w] => w
  | w :: l' => w ++ space :: join l'
  end.

Definition is_token (w : list char) : Prop :=
  w ≠ [] ∧ forallb (λ c, negb (isspace c)) w = true.

Definition keep_word (stopwords : list (list char)) (word : list char)
  : bool :=
  negb (bool_decide (lower word ∈ stopwords)).

Definition remove_step (stopwords : list (list char))
    (clean_words : list (list char)) (word : list char)
  : list (list char) :=
  if keep_word stopwords word then clean_words ++ [word] else clean_words.

Definition remove_stopwords_from_text (text : list char)
    (stopwords : list (list char)) : list char :=
  let words := split text in
  let clean_words := fold_left (remove_step stopwords) words [] in
  join clean_words.

End Alphabet.

End Uni.

(** The alphabet of the rest of the file, U+0000..U+00FF. *)
Module Latin1.

Definition lower (s : list ascii) : list ascii := map Py.tolower s.

Definition space : ascii := " ".

Definition remove_stopwords_from_text (text : list ascii)
    (stopwords : list (list ascii)) : list ascii :=
  Uni.remove_stopwords_from_text Py.isspace lower space text stopwords.

End Latin1.

(** That alphabet with one character more, U+2102 (the double-struck
    capital C): a letter of the upper case, no whitespace, that [str.lower]
    leaves as it is. *)
Module Wide.

Inductive char : Type :=
  | Latin (a : ascii)
  | DoubleStruckC.

#[global] Instance char_eq_dec : EqDecision char.
Proof. solve_decision. Defined.

Definition isspace (c : char) : bool :=
  match c with
  | Latin a => Py.isspace a
  | DoubleStruckC => false
  end.

Definition isupper_char (c : char) : bool :=
  match c with
  | Latin a => Py.isupper_char a
  | DoubleStruckC => true
  end.

Definition tolower (c : char) : char :=
  match c with
  | Latin a => Latin (Py.tolower a)
  | DoubleStruckC => DoubleStruckC
  end.

Definition lower (s : list char) : list char := map tolower s.

(** A stopword entry with an upper-case character in it. *)
Definition has_upper (entry : list char) : bool :=
  existsb isupper_char entry.

Definition space : char := Latin " ".

(** A string of the narrower alphabet, in this one. *)
Definition str (s : string) : list char :=
  map Latin (list_ascii_of_string s).

Definition remove_stopwords_from_text (text : list char)
    (stopwords : list (list char)) : list char :=
  Uni.remove_stopwords_from_text isspace lower space text stopwords.

End Wide.

(** * Properties *)

(** ** Strings: append, runs and joins *)

Section Strings.

Lemma append_cons (c : ascii) (s t : string) :
  String c s +:+ t = String c (s +:+ t).
Proof. reflexivity. Qed.

Lemma append_nil_l (t : string) : "" +:+ t = t.
Proof. reflexivity. Qed.

Lemma append_nil_r (s : string) : s +:+ "" = s.
Proof.
  induction s as [|c s IH]; [reflexivity |].
  now rewrite append_cons, IH.
Qed.

Lemma append_assoc (s t u : string) : (s +:+ t) +:+ u = s +:+ (t +:+ u).
Proof.
  induction s as [|c s IH]; [reflexivity |].
  now rewrite !append_cons, IH.
Qed.

Lemma append_snoc (s t : string) (c : ascii) :
  (s +:+ String c "") +:+ t = s +:+ String c t.
Proof. now rewrite append_assoc. Qed.

Lemma all_chars_append (p : ascii → bool) (s t : string) :
  Py.all_chars p (s +:+ t) = Py.all_chars p s && Py.all_chars p t.
Proof.
  induction s as [|c s IH]; [reflexivity |].
  rewrite append_cons. simpl. rewrite IH. now rewrite andb_assoc.
Qed.

Lemma flush_token (s : string) : s ≠ "" → Py.flush s = [s].
Proof. destruct s; [congruence | reflexivity]. Qed.

Variable sep : ascii → bool.

(** Reading a run of non-separators only extends the current run. *)
Lemma fields_go_run (w cur s : string) :
  Py.sep_free sep w = true →
  Py.fields_go sep cur (w +:+ s) = Py.fields_go sep (cur +:+ w) s.
Proof.
  revert cur. induction w as [|c w IH]; intros cur Hw.
  - now rewrite append_nil_r.
  - rewrite append_cons. simpl. unfold Py.sep_free in Hw. simpl in Hw.
    apply andb_true_iff in Hw as [Hc Hw].
    apply negb_true_iff in Hc. rewrite Hc.
    rewrite IH by exact Hw. now rewrite append_snoc.
Qed.

(** Every run that [fields_go] returns is a token. *)
Lemma fields_go_tokens (s cur : string) :
  Py.sep_free sep cur = true →
  Forall (Py.is_token sep) (Py.fields_go sep cur s).
Proof.
  revert cur. induction s as [|c s IH]; intros cur Hcur; simpl.
  - destruct cur; simpl; [constructor |].
    constructor; [split; [discriminate | exact Hcur] | constructor].
  - destruct (sep c) eqn:Hc.
    + apply Forall_app. split; [| now apply IH].
      destruct cur; simpl; [constructor |].
      constructor; [split; [discriminate | exact Hcur] | constructor].
    + apply IH. unfold Py.sep_free in *. rewrite all_chars_append.
      simpl. now rewrite Hcur, Hc.
Qed.

Lemma fields_tokens (s : string) : Forall (Py.is_token sep) (Py.fields sep s).
Proof. now apply fields_go_tokens. Qed.

(** Runs do not cross a separator: the runs of [a d b], [d] a separator,
    are those of [a] followed by those of [b]. *)
Lemma fields_go_sep (a b cur : string) (d : ascii) :
  sep d = true →
  Py.fields_go sep cur (a +:+ String d b)
  = (Py.fields_go sep cur a ++ Py.fields sep b)%list.
Proof.
  intros Hd. unfold Py.fields. revert cur.
  induction a as [|c a IH]; intros cur.
  - rewrite append_nil_l. simpl. now rewrite Hd.
  - rewrite append_cons. simpl. destruct (sep c); [| apply IH].
    rewrite IH. now rewrite app_assoc.
Qed.

(** A token is its own single run. *)
Lemma fields_token (w : string) :
  Py.is_token sep w → Py.fields sep w = [w].
Proof.
  intros [Hne Hw]. unfold Py.fields.
  rewrite <- (append_nil_r w) at 1.
  rewrite fields_go_run by exact Hw. simpl. now apply flush_token.
Qed.

(** Joining tokens with one separator character and reading the runs
    again gives the tokens back. *)
Lemma fields_join (d : ascii) (l : list string) :
  sep d = true →
  Forall (Py.is_token sep) l →
  Py.fields sep (Py.join (String d "") l) = l.
Proof.
  intros Hd Hl. unfold Py.fields, Py.join.
  induction Hl as [|w l [Hne Hw] Hl IH]; [reflexivity |].
  destruct l as [|w' l].
  - simpl. rewrite <- (append_nil_r w) at 1.
    rewrite fields_go_run by exact Hw. simpl. now apply flush_token.
  - change (String.concat (String d "") (w :: w' :: l))
      with (w +:+ String d (String.concat (String d "") (w' :: l))).
    rewrite fields_go_run by exact Hw. rewrite append_nil_l.
    cbn [Py.fields_go]. rewrite Hd, IH. now rewrite flush_token.
Qed.

End Strings.

(** ** Characters *)

Section Characters.

Lemma space_isspace : Py.isspace " " = true.
Proof. reflexivity. Qed.

End Characters.

(** ** [remove_stopwords_from_text] *)

Section RemoveStopwords.

Implicit Types (text : string) (stopwords : list string).

Lemma keep_word_spec stopwords word :
  keep_word stopwords word = true ↔ Py.lower word ∉ stopwords.
Proof.
  unfold keep_word. rewrite negb_true_iff, bool_decide_eq_false. tauto.
Qed.

(** The loop is a filter that appends to what it was given. *)
Lemma remove_loop_filter stopwords (words acc : list string) :
  fold_left (remove_step stopwords) words acc
  = (acc ++ filter (λ token, Py.lower token ∉ stopwords) words)%list.
Proof.
  revert acc. induction words as [|w words IH]; intros acc; simpl.
  - now rewrite app_nil_r.
  - rewrite IH. unfold remove_step. rewrite filter_cons.
    destruct (keep_word stopwords w) eqn:Hk.
    + apply keep_word_spec in Hk. rewrite decide_True by exact Hk.
      now rewrite <- app_assoc.
    + rewrite decide_False; [reflexivity |].
      intros Hn. apply keep_word_spec in Hn. congruence.
Qed.

Lemma remove_stopwords_unfold text stopwords :
  remove_stopwords_from_text text stopwords
  = Py.join " "
      (filter (λ token, Py.lower token ∉ stopwords) (Py.split text)).
Proof.
  unfold remove_stopwords_from_text. now rewrite remove_loop_filter.
Qed.

Lemma split_tokens text : Forall (Py.is_token Py.isspace) (Py.split text).
Proof. apply fields_tokens. Qed.

(** Splitting a single-space join of tokens gives the tokens back. *)
Lemma split_join (l : list string) :
  Forall (Py.is_token Py.isspace) l → Py.split (Py.join " " l) = l.
Proof. intros Hl. now apply (fields_join Py.isspace " "). Qed.

Lemma filter_tokens (P : string → Prop) `{∀ x, Decision (P x)} text :
  Forall (Py.is_token Py.isspace) (filter P (Py.split text)).
Proof.
  apply Forall_forall. intros w Hw. apply list_elem_of_filter in Hw as [_ Hw].
  revert w Hw. apply Forall_forall, split_tokens.
Qed.

(** The tokens of the output are the surviving tokens of the input. *)
Lemma split_remove_stopwords text stopwords :
  Py.split (remove_stopwords_from_text text stopwords)
  = filter (λ token, Py.lower token ∉ stopwords) (Py.split text).
Proof.
  rewrite remove_stopwords_unfold. apply split_join, filter_tokens.
Qed.

(** C7. [remove_stopwords_from_text] splits the text on whitespace, drops
    a token exactly when its lower-cased form is in the stopword list, and
    joins the survivors with single spaces in their order: it is the
    specification's [removeStopwords]; the tokens of the output are the
    surviving tokens of the input, in order; a token of the input is a token
    of the output iff its lower-cased form is no stopword; the output is
    single-spaced whatever the input's spacing was.  The tokens are the
    maximal runs without whitespace: none is empty or has a whitespace
    character. *)
Theorem remove_stopwords_drops_exactly_stopwords text stopwords :
  remove_stopwords_from_text text stopwords
    = Spec.removeStopwords text stopwords
  ∧ Forall (Py.is_token Py.isspace) (Py.split text)
  ∧ Py.split (remove_stopwords_from_text text stopwords)
    = filter (λ token, Py.lower token ∉ stopwords) (Py.split text)
  ∧ (∀ token, token ∈ Py.split text →
       (token ∈ Py.split (remove_stopwords_from_text text stopwords)
        ↔ Py.lower token ∉ stopwords))
  ∧ remove_stopwords_from_text text stopwords
    = Py.join " " (Py.split (remove_stopwords_from_text text stopwords))
  ∧ remove_stopwords_from_text "to  be   or" ["or"] = "to be".
Proof.
  split; [apply remove_stopwords_unfold |].
  split; [apply split_tokens |].
  split; [apply split_remove_stopwords |].
  split.
  - intros token Hin. rewrite split_remove_stopwords, list_elem_of_filter.
    tauto.
  - split; [| reflexivity].
    rewrite split_remove_stopwords. apply remove_stopwords_unfold.
Qed.

Lemma remove_stopwords_drops_exactly_stopwords_witness :
  "Cat" ∈ Py.split (remove_stopwords_from_text "The Cat  sat" ["the"]).
Proof.
  apply (proj1 (proj2 (proj2 (proj2
    (remove_stopwords_drops_exactly_stopwords "The Cat  sat" ["the"]))))).
  - vm_compute. apply list_elem_of_further, list_elem_of_here.
  - vm_compute. intros H. apply list_elem_of_singleton in H. discriminate H.
Defined.

(** C8. [remove_stopwords_from_text] is idempotent. *)
Theorem remove_stopwords_idempotent text stopwords :
  remove_stopwords_from_text
    (remove_stopwords_from_text text stopwords) stopwords
  = remove_stopwords_from_text text stopwords.
Proof.
  rewrite (remove_stopwords_unfold (remove_stopwords_from_text _ _)).
  rewrite split_remove_stopwords.
  rewrite list_filter_filter_r by tauto.
  symmetry. apply remove_stopwords_unfold.
Qed.

End RemoveStopwords.

(** ** [remove_stopwords_from_text] over any alphabet *)

Section Alphabets.

Context {char : Type} `{EqDecision char}.
Variable isspace : char → bool.
Variable lower : list char → list char.
Variable space : char.

Implicit Types (text w cur : list char) (stopwords l : list (list char)).

Local Abbreviation split := (Uni.split isspace).
Local Abbreviation join := (Uni.join space).
Local Abbreviation token := (Uni.is_token isspace).
Local Abbreviation remove :=
  (Uni.remove_stopwords_from_text isspace lower space).

Lemma uni_flush_token w : w ≠ [] → Uni.flush w = [w].
Proof. destruct w; [congruence | reflexivity]. Qed.

Lemma uni_flush_tokens cur :
  forallb (λ c, negb (isspace c)) cur = true → Forall token (Uni.flush cur).
Proof.
  intros Hcur. destruct cur as [|c cur]; [constructor |].
  constructor; [split; [discriminate | exact Hcur] | constructor].
Qed.

Lemma uni_fields_go_run w cur text :
  forallb (λ c, negb (isspace c)) w = true →
  Uni.fields_go isspace cur (w ++ text)
  = Uni.fields_go isspace (cur ++ w) text.
Proof.
  revert cur. induction w as [|c w IH]; intros cur Hw.
  - now rewrite app_nil_r.
  - simpl in Hw. apply andb_true_iff in Hw as [Hc Hw].
    apply negb_true_iff in Hc. simpl. rewrite Hc.
    rewrite IH by exact Hw. now rewrite <- app_assoc.
Qed.

Lemma uni_fields_go_tokens text cur :
  forallb (λ c, negb (isspace c)) cur = true →
  Forall token (Uni.fields_go isspace cur text).
Proof.
  revert cur. induction text as [|c text IH]; intros cur Hcur; simpl.
  - now apply uni_flush_tokens.
  - destruct (isspace c) eqn:Hc.
    + apply Forall_app. split; [now apply uni_flush_tokens | now apply IH].
    + apply IH. rewrite forallb_app. simpl. now rewrite Hcur, Hc.
Qed.

Lemma uni_split_tokens text : Forall token (split text).
Proof. now apply uni_fields_go_tokens. Qed.

Lemma uni_remove_loop_filter stopwords l (acc : list (list char)) :
  fold_left (Uni.remove_step lower stopwords) l acc
  = (acc ++ filter (λ w, lower w ∉ stopwords) l)%list.
Proof.
  revert acc. induction l as [|w l IH]; intros acc; simpl.
  - now rewrite app_nil_r.
  - rewrite IH. unfold Uni.remove_step, Uni.keep_word. rewrite filter_cons.
    destruct (decide (lower w ∈ stopwords)) as [Hin | Hn].
    + rewrite bool_decide_eq_true_2 by exact Hin. simpl.
      destruct (decide (lower w ∉ stopwords)) as [Hn | _]; [| reflexivity].
      now destruct Hn.
    + rewrite bool_decide_eq_false_2 by exact Hn. simpl.
      rewrite decide_True by exact Hn. now rewrite <- app_assoc.
Qed.

Lemma uni_remove_unfold text stopwords :
  remove text stopwords
  = join (filter (λ w, lower w ∉ stopwords) (split text)).
Proof.
  unfold Uni.remove_stopwords_from_text. now rewrite uni_remove_loop_filter.
Qed.

Hypothesis space_isspace : isspace space = true.

(** Splitting a join of tokens gives the tokens back. *)
Lemma uni_split_join l : Forall token l → split (join l) = l.
Proof.
  intros Hl. unfold Uni.split.
  induction Hl as [|w l [Hne Hw] Hl IH]; [reflexivity |].
  destruct l as [|w' l].
  - simpl. rewrite <- (app_nil_r w) at 1.
    rewrite uni_fields_go_run by exact Hw. simpl. now apply uni_flush_token.
  - change (Uni.join space (w :: w' :: l))
      with (w ++ space :: Uni.join space (w' :: l))%list.
    rewrite uni_fields_go_run by exact Hw. rewrite app_nil_l.
    cbn [Uni.fields_go]. rewrite space_isspace, IH.
    now rewrite uni_flush_token.
Qed.

Lemma uni_split_remove text stopwords :
  split (remove text stopwords)
  = filter (λ w, lower w ∉ stopwords) (split text).
Proof.
  rewrite uni_remove_unfold. apply uni_split_join.
  apply Forall_forall. intros w Hw. apply list_elem_of_filter in Hw as [_ Hw].
  revert w Hw. apply Forall_forall, uni_split_tokens.
Qed.

Hypothesis lower_idempotent : ∀ w, lower (lower w) = lower w.

(** An entry that lower-casing changes is the lower-cased form of no
    token. *)
Lemma uni_changed_entry_matches_nothing (entry w : list char) :
  lower entry ≠ entry → lower w ≠ entry.
Proof. intros Hne Heq. apply Hne. rewrite <- Heq. apply lower_idempotent. Qed.

(** C10. Stopword matching normalises the case of the token only.  For
    every alphabet, with [str.lower] idempotent on it: an entry of the
    stopword list that [str.lower] changes is the lower-cased form of no
    token, so the list without such entries removes the same tokens, and a
    token survives as soon as its lower-cased form is not itself in the
    list. *)
Theorem changed_case_stopwords_match_nothing text stopwords :
  (∀ entry w,
     entry ∈ stopwords → lower entry ≠ entry →
     w ∈ split text → lower w ≠ entry)
  ∧ remove text stopwords
    = remove text (filter (λ entry, lower entry = entry) stopwords)
  ∧ (∀ w,
       w ∈ split text → lower w ∉ stopwords →
       w ∈ split (remove text stopwords)).
Proof.
  split; [| split].
  - intros entry w _ Hne _. now apply uni_changed_entry_matches_nothing.
  - rewrite !uni_remove_unfold. f_equal.
    apply list_filter_iff. intros w.
    rewrite list_elem_of_filter. split.
    + intros Hn [_ Hin]. now apply Hn.
    + intros Hn Hin. apply Hn. split; [apply lower_idempotent | exact Hin].
  - intros w Hin Hn. rewrite uni_split_remove.
    apply list_elem_of_filter. now split.
Qed.

End Alphabets.

(** ** The alphabet U+0000..U+00FF

    Over the characters of the rest of the file the function of the
    [Uni] module is [remove_stopwords_from_text] itself. *)

Section Latin1Alphabet.

Local Abbreviation chars := list_ascii_of_string.

Lemma chars_append (s t : string) : chars (s +:+ t) = (chars s ++ chars t)%list.
Proof.
  induction s as [|c s IH]; [reflexivity |].
  rewrite append_cons. simpl. now rewrite IH.
Qed.

Lemma chars_inj (s t : string) : chars s = chars t → s = t.
Proof.
  intros H. rewrite <- (string_of_list_ascii_of_string s),
    <- (string_of_list_ascii_of_string t). now rewrite H.
Qed.

Lemma chars_flush (cur : string) :
  map chars (Py.flush cur) = Uni.flush (chars cur).
Proof. now destruct cur. Qed.

Lemma chars_fields_go (s cur : string) :
  map chars (Py.fields_go Py.isspace cur s)
  = Uni.fields_go Py.isspace (chars cur) (chars s).
Proof.
  revert cur. induction s as [|c s IH]; intros cur; simpl.
  - apply chars_flush.
  - destruct (Py.isspace c).
    + rewrite map_app, chars_flush. f_equal. apply (IH "").
    + rewrite IH, chars_append. reflexivity.
Qed.

Lemma chars_split (s : string) :
  map chars (Py.split s) = Uni.split Py.isspace (chars s).
Proof. apply (chars_fields_go s ""). Qed.

Lemma chars_join (l : list string) :
  chars (Py.join " " l) = Uni.join Latin1.space (map chars l).
Proof.
  unfold Py.join. induction l as [|w l IH]; [reflexivity |].
  destruct l as [|w' l]; [reflexivity |].
  change (String.concat " " (w :: w' :: l))
    with (w +:+ String " " (String.concat " " (w' :: l))).
  rewrite chars_append. cbn [map Uni.join] in IH |- *.
  cbn [list_ascii_of_string]. now rewrite IH.
Qed.

Lemma chars_lower (s : string) : chars (Py.lower s) = Latin1.lower (chars s).
Proof.
  unfold Py.lower, Latin1.lower.
  induction s as [|c s IH]; [reflexivity |]. simpl. now rewrite IH.
Qed.

Lemma chars_filter (stopwords l : list string) :
  filter (λ w, Latin1.lower w ∉ map chars stopwords) (map chars l)
  = map chars (filter (λ token, Py.lower token ∉ stopwords) l).
Proof.
  induction l as [|w l IH]; [reflexivity |].
  cbn [map]. rewrite !filter_cons, IH, <- chars_lower.
  assert (Hiff : chars (Py.lower w) ∈ map chars stopwords
                 ↔ Py.lower w ∈ stopwords).
  { rewrite list_elem_of_fmap. split.
    - intros (y & Hy & Hin). apply chars_inj in Hy. now subst y.
    - intros Hin. now exists (Py.lower w). }
  destruct (decide (Py.lower w ∉ stopwords)) as [Hn | Hin].
  - rewrite decide_True by now rewrite Hiff. reflexivity.
  - rewrite decide_False by now rewrite Hiff. reflexivity.
Qed.

(** [Uni.remove_stopwords_from_text] on this alphabet is
    [remove_stopwords_from_text]. *)
Lemma latin1_remove_stopwords (text : string) (stopwords : list string) :
  Latin1.remove_stopwords_from_text (chars text) (map chars stopwords)
  = chars (remove_stopwords_from_text text stopwords).
Proof.
  unfold Latin1.remove_stopwords_from_text.
  rewrite uni_remove_unfold, remove_stopwords_unfold, chars_join.
  now rewrite <- chars_split, chars_filter.
Qed.

End Latin1Alphabet.

(** ** The alphabet with U+2102 *)

Section WideAlphabet.

Lemma wide_tolower_idem (c : Wide.char) :
  Wide.tolower (Wide.tolower c) = Wide.tolower c.
Proof.
  destruct c as [a|]; [| reflexivity].
  simpl. f_equal. destruct a as [[] [] [] [] [] [] [] []]; reflexivity.
Qed.

Lemma wide_lower_idem (s : list Wide.char) :
  Wide.lower (Wide.lower s) = Wide.lower s.
Proof.
  unfold Wide.lower. induction s as [|c s IH]; [reflexivity |].
  simpl. now rewrite wide_tolower_idem, IH.
Qed.

(** The entry U+2102 is a letter of the upper case and removes the token
    U+2102: of the text of U+2102, a space and "is" the clean text is
    "is". *)
Lemma uppercase_stopword_matches :
  Wide.has_upper [Wide.DoubleStruckC] = true
  ∧ Wide.lower [Wide.DoubleStruckC] = [Wide.DoubleStruckC]
  ∧ Uni.split Wide.isspace (Wide.DoubleStruckC :: Wide.str " is")
    = [[Wide.DoubleStruckC]; Wide.str "is"]
  ∧ Wide.remove_stopwords_from_text
      (Wide.DoubleStruckC :: Wide.str " is") [[Wide.DoubleStruckC]]
    = Wide.str "is".
Proof. repeat split; vm_compute; reflexivity. Qed.

Lemma changed_case_stopwords_match_nothing_witness :
  Wide.str "The"
  ∈ Uni.split Wide.isspace
      (Wide.remove_stopwords_from_text
         (Wide.str "The cat sat") [Wide.str "The"; Wide.str "sat"]).
Proof.
  apply (proj2 (proj2
    (changed_case_stopwords_match_nothing Wide.isspace Wide.lower Wide.space
       eq_refl wide_lower_idem
       (Wide.str "The cat sat") [Wide.str "The"; Wide.str "sat"]))).
  - vm_compute. apply list_elem_of_here.
  - vm_compute. intros H.
    apply elem_of_cons in H as [H | H]; [discriminate H |].
    apply list_elem_of_singleton in H. discriminate H.
Defined.

End WideAlphabet.

(** ** [count_syllables] *)

Section Syllables.

Variable dict : gmap string (list (list string)).

Lemma last_char_none (s : string) : Py.last_char s = None → s = "".
Proof.
  induction s as [|a s IH]; [reflexivity |].
  simpl. destruct s; [discriminate |].
  intros H. apply IH in H. discriminate H.
Qed.

(** The comprehension keeps the phonemes with a final digit; it can only
    fail on an empty phoneme. *)
Lemma stressed_sounds_filter (variant : list string) :
  Spec.variant_ok variant = true →
  stressed_sounds variant = Ok (List.filter Spec.final_is_digit variant).
Proof.
  induction variant as [|sound rest IH]; [reflexivity |].
  simpl. intros H. apply andb_true_iff in H as [Hs Hrest].
  rewrite IH by exact Hrest. unfold Spec.final_is_digit.
  destruct (Py.last_char sound) as [c|] eqn:Hlast.
  - simpl. now destruct (Py.isdigit_char c).
  - apply last_char_none in Hlast. subst sound. discriminate Hs.
Qed.

Lemma entry_ok_first (variants : list (list string)) :
  Is_true (Spec.entry_ok variants) →
  ∃ variant rest,
    variants = variant :: rest ∧ Spec.variant_ok variant = true.
Proof.
  destruct variants as [|variant rest]; simpl; [tauto |].
  intros H. apply Is_true_true, andb_true_iff in H as [H _]. eauto.
Qed.

(** The loop counts the runs of vowels that begin in the rest of the
    word: one less than the runs [fields_go] returns when a run is being
    read. *)
Lemma vowel_loop_runs (word cur : string) (count : Z) :
  vowel_loop count (negb (String.eqb cur "")) word
  = count
    + Py.len (Py.fields_go (λ c, negb (Spec.is_vowel c)) cur word)
    - (if String.eqb cur "" then 0 else 1).
Proof.
  revert cur count. unfold Py.len.
  induction word as [|c word IH]; intros cur count.
  - destruct cur; simpl; lia.
  - simpl. change (Py.char_in c vowels) with (Spec.is_vowel c).
    destruct (Spec.is_vowel c); simpl.
    + specialize (IH (cur +:+ String c "") (if negb (negb (cur =? ""))%string
                                             then count + 1 else count)).
      assert (Hne : ((cur +:+ String c "") =? "")%string = false).
      { destruct cur; reflexivity. }
      rewrite Hne in IH. simpl in IH. rewrite IH.
      destruct (cur =? "")%string; simpl; lia.
    + specialize (IH "" count). simpl in IH. rewrite IH.
      rewrite length_app. destruct cur; simpl; lia.
Qed.

Lemma vowel_loop_vowel_runs (word : string) :
  vowel_loop 0 false word = Py.len (Spec.vowel_runs word).
Proof.
  change false with (negb (String.eqb "" "")).
  rewrite vowel_loop_runs. unfold Spec.vowel_runs, Py.fields. simpl. lia.
Qed.

(** On a word that is no key of the dictionary the estimate is the
    number of vowel runs, and at least 1. *)
Lemma count_syllables_fallback (word : string) :
  dict !! Py.lower word = None →
  count_syllables dict word
  = Ok (Z.max 1 (Py.len (Spec.vowel_runs (Py.lower word)))).
Proof.
  intros Hnone. unfold count_syllables. rewrite Hnone.
  now rewrite vowel_loop_vowel_runs.
Qed.

(** On a key of the dictionary the estimate is the number of phonemes of
    the first variant that end in a digit. *)
Lemma count_syllables_dictionary (word : string) variant rest :
  dict !! Py.lower word = Some (variant :: rest) →
  Spec.variant_ok variant = true →
  count_syllables dict word
  = Ok (Py.len (List.filter Spec.final_is_digit variant)).
Proof.
  intros Hsome Hok. unfold count_syllables. rewrite Hsome.
  simpl. now rewrite stressed_sounds_filter.
Qed.

(** With a dictionary of the data model the estimator is the
    specification's. *)
Lemma count_syllables_spec (word : string) :
  Spec.dict_ok dict →
  count_syllables dict word = Ok (Spec.syllables dict word).
Proof.
  intros Hdict. unfold Spec.syllables.
  destruct (dict !! Py.lower word) as [variants|] eqn:Hlook.
  - pose proof (map_Forall_lookup_1 _ _ _ _ Hdict Hlook) as Hok.
    destruct (entry_ok_first _ Hok) as (variant & rest & -> & Hv).
    now apply count_syllables_dictionary with (rest := rest).
  - now apply count_syllables_fallback.
Qed.

(** C5. [count_syllables] follows the algorithm of the specification on
    the lower-cased word: on a key of the dictionary it returns the number
    of phonemes of the first variant whose final character is a digit
    (the phonemes being non-empty), and otherwise the number of maximal
    runs of vowels, floored at 1; so with a dictionary of the data model it
    is the specification's [syllables].  For words absent from the
    dictionary, "cat" has 1 syllable and "happy" has 2 (the runs "a" and
    "y"). *)
Theorem count_syllables_follows_algorithm (word : string) :
  (∀ variant rest,
     dict !! Py.lower word = Some (variant :: rest) →
     Spec.variant_ok variant = true →
     count_syllables dict word
     = Ok (Py.len (List.filter Spec.final_is_digit variant)))
  ∧ (dict !! Py.lower word = None →
       count_syllables dict word
       = Ok (Z.max 1 (Py.len (Spec.vowel_runs (Py.lower word)))))
  ∧ (Spec.dict_ok dict →
       count_syllables dict word = Ok (Spec.syllables dict word))
  ∧ (dict !! "cat" = None → count_syllables dict "cat" = Ok 1)
  ∧ (dict !! "happy" = None →
       count_syllables dict "happy" = Ok 2
       ∧ Spec.vowel_runs "happy" = ["a"; "y"]).
Proof.
  split; [apply count_syllables_dictionary |].
  split; [apply count_syllables_fallback |].
  split; [apply count_syllables_spec |].
  split.
  - intros H. now rewrite count_syllables_fallback by exact H.
  - intros H. split; [| reflexivity].
    now rewrite count_syllables_fallback by exact H.
Qed.

End Syllables.

Lemma count_syllables_follows_algorithm_witness :
  count_syllables Sample.cmu "Cat" = Ok (Spec.syllables Sample.cmu "Cat")
  ∧ count_syllables ∅ "happy" = Ok 2.
Proof.
  split.
  - apply (proj1 (proj2 (proj2
      (count_syllables_follows_algorithm Sample.cmu "Cat")))).
    unfold Sample.cmu. apply map_Forall_insert_2; [exact I |].
    apply map_Forall_singleton. exact I.
  - apply (proj2 (proj2 (proj2 (proj2
      (count_syllables_follows_algorithm ∅ "happy"))))).
    apply lookup_empty.
Defined.

(** On the fallback path the estimate is at least 1. *)
Lemma count_syllables_fallback_floor
    (dict : gmap string (list (list string))) (word : string) :
  dict !! Py.lower word = None →
  ∃ n, count_syllables dict word = Ok n ∧ 1 ≤ n.
Proof.
  intros H. eexists. split.
  - now apply count_syllables_fallback.
  - lia.
Qed.

(** C4. The floor of 1 is applied on the fallback path only.  With the
    entry "hmm" -> [["HH"; "M"]] in the dictionary, whose first variant has
    no phoneme with a final digit, [count_syllables] returns 0 for "hmm";
    without the entry it returns 1 for the same word. *)
Theorem count_syllables_dictionary_zero :
  Sample.cmu !! "hmm" = Some [["HH"; "M"]]
  ∧ count_syllables Sample.cmu "hmm" = Ok 0
  ∧ count_syllables ∅ "hmm" = Ok 1.
Proof. repeat split; reflexivity. Qed.

(** ** The regular expression of the personal pronouns *)

Section Pronouns.

Lemma last_char_cons (c : ascii) (s : string) :
  Py.last_char (String c s) = Py.last_or (Some c) s.
Proof.
  unfold Py.last_or. destruct s as [|d s]; [reflexivity |].
  change (Py.last_char (String c (String d s)))
    with (Py.last_char (String d s)).
  destruct (Py.last_char (String d s)) eqn:H; [reflexivity |].
  apply last_char_none in H. discriminate H.
Qed.

Lemma last_or_cons (prev : option ascii) (c : ascii) (s : string) :
  Py.last_or (Some c) s = Py.last_or prev (String c s).
Proof.
  unfold Py.last_or at 2. rewrite last_char_cons.
  unfold Py.last_or. now destruct (Py.last_char s).
Qed.

Lemma substring_0_0 (s : string) : substring 0 0 s = "".
Proof. now destruct s. Qed.

Lemma lower_length (s : string) : String.length (Py.lower s) = String.length s.
Proof.
  unfold Py.lower. induction s as [|c s IH]; simpl; [reflexivity | now rewrite IH].
Qed.

(** What reading a literal returns, in terms of the prefix of the
    subject as long as the literal. *)
Lemma match_literal_spec (lit : string) (prev : option ascii) (s : string) :
  let found := substring 0 (String.length lit) s in
  match Re.match_literal lit prev s with
  | Some (prev', rest) =>
      Py.lower found = Py.lower lit
      ∧ prev' = Py.last_or prev found
      ∧ Py.head_char rest = String.get (String.length lit) s
  | None => Py.lower found ≠ Py.lower lit
  end.
Proof.
  revert prev s. induction lit as [|p lit IH]; intros prev s; simpl.
  - rewrite substring_0_0. repeat split. now destruct s.
  - destruct s as [|c s]; simpl; [discriminate |].
    destruct (Ascii.eqb_spec (Py.tolower c) (Py.tolower p)) as [Heq | Hne].
    + specialize (IH (Some c) s). simpl in IH.
      destruct (Re.match_literal lit (Some c) s) as [[prev' rest]|].
      * destruct IH as (Hl & Hp & Hh). repeat split.
        -- unfold Py.lower in *. simpl. now rewrite Heq, Hl.
        -- rewrite Hp. apply last_or_cons.
        -- exact Hh.
      * intros H. apply IH. unfold Py.lower in *. simpl in H.
        now injection H.
    + intros H. apply Hne. unfold Py.lower in H. simpl in H.
      now injection H.
Qed.

(** One alternative followed by [\b]. *)
Lemma alternative_spec (lit : string) (prev : option ascii) (s : string) :
  lit ≠ "" →
  match Re.match_literal lit prev s with
  | Some (prev', rest) => Re.at_boundary prev' (Py.head_char rest)
  | None => false
  end = Spec.word_ends_at lit s.
Proof.
  intros Hlit. unfold Spec.word_ends_at.
  pose proof (match_literal_spec lit prev s) as H. simpl in H.
  destruct (Re.match_literal lit prev s) as [[prev' rest]|].
  - destruct H as (Hl & Hp & Hh). rewrite Hl, String.eqb_refl, Hh, Hp.
    simpl. unfold Py.last_or.
    destruct (Py.last_char (substring 0 (String.length lit) s)) eqn:Hlast;
      [reflexivity |].
    apply last_char_none in Hlast. rewrite Hlast in Hl.
    destruct lit; [congruence | discriminate Hl].
  - apply String.eqb_neq in H. now rewrite H.
Qed.

Lemma match_alternatives_spec (alts : list string) prev s :
  Forall (λ lit, lit ≠ "") alts →
  Re.match_alternatives alts prev s
  = option_map String.length (List.find (λ lit, Spec.word_ends_at lit s) alts).
Proof.
  induction 1 as [|lit alts Hlit _ IH]; [reflexivity |].
  simpl. rewrite <- (alternative_spec lit prev s Hlit).
  destruct (Re.match_literal lit prev s) as [[prev' rest]|]; [| exact IH].
  destruct (Re.at_boundary prev' (Py.head_char rest)); [reflexivity | exact IH].
Qed.

Lemma existsb_find {A} (f : A → bool) (l : list A) :
  existsb f l = match List.find f l with Some _ => true | None => false end.
Proof.
  induction l as [|x l IH]; [reflexivity |].
  simpl. now destruct (f x).
Qed.

Lemma alternatives_nonempty : Forall (λ lit, lit ≠ "") Re.alternatives.
Proof. repeat constructor; discriminate. Qed.

(** The pattern at one position: a boundary, then the first pronoun that
    ends a word there. *)
Lemma match_at_spec (prev : option ascii) (s : string) :
  Re.match_at prev s
  = if Re.at_boundary prev (Py.head_char s)
    then option_map String.length
           (List.find (λ lit, Spec.word_ends_at lit s) Re.alternatives)
    else None.
Proof.
  unfold Re.match_at.
  now rewrite match_alternatives_spec by apply alternatives_nonempty.
Qed.

Lemma pronoun_at_spec (prev : option ascii) (s : string) :
  Spec.pronoun_at prev s
  = Re.at_boundary prev (Py.head_char s)
    && existsb (λ p, Spec.word_ends_at p s) Spec.pronouns.
Proof.
  unfold Spec.pronoun_at, Spec.pronouns, Spec.whole_word_at,
    Spec.word_ends_at.
  destruct (Re.at_boundary prev (Py.head_char s)); simpl.
  - rewrite !orb_false_r. reflexivity.
  - reflexivity.
Qed.

(** The pattern matches at a position exactly when a pronoun stands
    there as a whole word. *)
Lemma match_at_pronoun_at (prev : option ascii) (s : string) :
  Spec.pronoun_at prev s
  = match Re.match_at prev s with Some _ => true | None => false end.
Proof.
  rewrite match_at_spec, pronoun_at_spec, existsb_find.
  change Spec.pronouns with Re.alternatives.
  destruct (Re.at_boundary prev (Py.head_char s)); [| reflexivity].
  now destruct (List.find (λ lit, Spec.word_ends_at lit s) Re.alternatives).
Qed.

Lemma word_char_tolower (c : ascii) :
  Re.is_word_char (Py.tolower c) = Re.is_word_char c.
Proof. destruct c as [[] [] [] [] [] [] [] []]; reflexivity. Qed.

Lemma word_chars_lower (s : string) :
  Py.all_chars Re.is_word_char (Py.lower s) = Py.all_chars Re.is_word_char s.
Proof.
  unfold Py.lower. induction s as [|c s IH]; [reflexivity |].
  simpl. now rewrite word_char_tolower, IH.
Qed.

Lemma alternatives_words :
  Forall (λ lit, (1 ≤ String.length lit)%nat
                 ∧ Py.all_chars Re.is_word_char (Py.lower lit) = true)
         Re.alternatives.
Proof. repeat constructor. Qed.

Lemma word_prefix_substring (n : nat) (s : string) :
  String.length (substring 0 n s) = n →
  Py.all_chars Re.is_word_char (substring 0 n s) = true →
  Re.word_prefix n s = true.
Proof.
  revert s. induction n as [|n IH]; intros s Hlen Hall; [reflexivity |].
  destruct s as [|c s]; [discriminate Hlen |].
  simpl in *. apply andb_true_iff in Hall as [Hc Hall].
  rewrite Hc. apply IH; [lia | exact Hall].
Qed.

(** A match is at least one character long and covers word characters
    only. *)
Lemma match_at_word (prev : option ascii) (s : string) (n : nat) :
  Re.match_at prev s = Some n →
  (1 ≤ n)%nat ∧ Re.word_prefix n s = true.
Proof.
  rewrite match_at_spec.
  destruct (Re.at_boundary prev (Py.head_char s)); [| discriminate].
  destruct (List.find (λ lit, Spec.word_ends_at lit s) Re.alternatives)
    as [lit|] eqn:Hfind; [| discriminate].
  simpl. intros [= <-]. apply List.find_some in Hfind as [Hin Hends].
  pose proof alternatives_words as Hw.
  rewrite List.Forall_forall in Hw. destruct (Hw _ Hin) as [Hlen Hall].
  split; [exact Hlen |].
  unfold Spec.word_ends_at in Hends.
  apply andb_true_iff in Hends as [Heq _]. apply String.eqb_eq in Heq.
  apply word_prefix_substring.
  - rewrite <- (lower_length (substring _ _ _)), Heq. apply lower_length.
  - rewrite <- word_chars_lower, Heq. exact Hall.
Qed.

Lemma no_pronoun_inside_word (prev : option ascii) (c : ascii) (s : string) :
  Re.is_w prev = true → Re.is_word_char c = true →
  Spec.pronoun_at prev (String c s) = false.
Proof.
  intros Hp Hc. rewrite pronoun_at_spec. unfold Re.at_boundary.
  simpl. now rewrite Hp, Hc.
Qed.

(** The scan finds one match per position where a pronoun stands as a
    whole word: the positions it skips are inside a word. *)
Lemma findall_go_occurrences (s : string) (prev : option ascii) (skip : nat) :
  skip = 0%nat ∨ (Re.is_w prev = true ∧ Re.word_prefix skip s = true) →
  length (Re.findall_go prev s skip) = Spec.occurrences_go prev s.
Proof.
  revert prev skip. induction s as [|c s IH]; intros prev skip Hinv.
  - reflexivity.
  - destruct skip as [|k].
    + cbn [Re.findall_go Spec.occurrences_go].
      rewrite match_at_pronoun_at.
      destruct (Re.match_at prev (String c s)) as [n|] eqn:Hm.
      * apply match_at_word in Hm as [Hn Hw].
        destruct n as [|n]; [lia |]. simpl in Hw.
        apply andb_true_iff in Hw as [Hc Hw].
        simpl. rewrite Nat.sub_0_r. f_equal. apply IH. right. now split.
      * simpl. apply IH. now left.
    + destruct Hinv as [Hk | [Hp Hw]]; [discriminate Hk |].
      simpl in Hw. apply andb_true_iff in Hw as [Hc Hw].
      cbn [Re.findall_go Spec.occurrences_go].
      rewrite no_pronoun_inside_word by assumption.
      simpl. apply IH. right. now split.
Qed.

(** [len(re.findall(...))] is the specification's count. *)
Lemma findall_personal_pronouns (text : string) :
  Py.len (Re.findall text) = Spec.personalPronouns text.
Proof.
  unfold Py.len, Re.findall, Spec.personalPronouns.
  rewrite findall_go_occurrences; [reflexivity | now left].
Qed.

End Pronouns.

(** ** Rationals and rounding *)

Section Rounding.

Local Open Scope Q_scope.

Lemma round_half_even_le (q : Q) (b : Z) :
  q <= inject_Z b → (round_half_even q ≤ b)%Z.
Proof.
  intros Hq. unfold round_half_even.
  pose proof (Qfloor_resp_le _ _ Hq) as Hf. rewrite Qfloor_Z in Hf.
  destruct (Z.eq_dec (Qfloor q) b) as [Heq | Hne].
  - assert (Hx : q - inject_Z (Qfloor q) <= 0).
    { rewrite Heq. rewrite <- (Qplus_opp_r (inject_Z b)).
      apply Qplus_le_l. exact Hq. }
    destruct (Qcompare_spec (q - inject_Z (Qfloor q)) (1 # 2))
      as [He | Hl | Hg].
    + rewrite He in Hx. apply Qle_not_lt in Hx. exfalso. now apply Hx.
    + lia.
    + apply Qle_not_lt in Hx. exfalso. apply Hx.
      now apply Qlt_trans with (y := 1 # 2).
  - destruct (q - inject_Z (Qfloor q) ?= 1 # 2);
      [destruct (Z.even (Qfloor q)) | |]; lia.
Qed.

Lemma round_half_even_ge (q : Q) (a : Z) :
  inject_Z a <= q → (a ≤ round_half_even q)%Z.
Proof.
  intros Hq. unfold round_half_even.
  pose proof (Qfloor_resp_le _ _ Hq) as Hf. rewrite Qfloor_Z in Hf.
  destruct (q - inject_Z (Qfloor q) ?= 1 # 2);
    [destruct (Z.even (Qfloor q)) | |]; lia.
Qed.

Lemma round_half_even_comp (x y : Q) :
  x == y → round_half_even x = round_half_even y.
Proof.
  intros H. unfold round_half_even.
  rewrite (Qfloor_comp _ _ H).
  assert (Hc : (x - inject_Z (Qfloor y) ?= 1 # 2)
               = (y - inject_Z (Qfloor y) ?= 1 # 2)).
  { apply Qcompare_comp; [now rewrite H | reflexivity]. }
  now rewrite Hc.
Qed.

(** [round] respects equality of rationals. *)
Lemma round_comp (x y : Q) (n : Z) : x == y → round x n = round y n.
Proof.
  intros H. unfold round.
  rewrite (round_half_even_comp (x * _) (y * inject_Z (10 ^ n))); [reflexivity |].
  now rewrite H.
Qed.

(** Rounding to three places stays within integer bounds. *)
Lemma round3_le (q : Q) (b : Z) : q <= inject_Z b → round q 3 <= inject_Z b.
Proof.
  intros Hq. unfold round. change (inject_Z (10 ^ 3)) with (inject_Z 1000).
  apply Qle_shift_div_r; [reflexivity |].
  rewrite <- inject_Z_mult, <- Zle_Qle.
  apply round_half_even_le. rewrite inject_Z_mult.
  apply Qmult_le_compat_r; [exact Hq | discriminate].
Qed.

Lemma round3_ge (q : Q) (a : Z) : inject_Z a <= q → inject_Z a <= round q 3.
Proof.
  intros Hq. unfold round. change (inject_Z (10 ^ 3)) with (inject_Z 1000).
  apply Qle_shift_div_l; [reflexivity |].
  rewrite <- inject_Z_mult, <- Zle_Qle.
  apply round_half_even_ge. rewrite inject_Z_mult.
  apply Qmult_le_compat_r; [exact Hq | discriminate].
Qed.




(** Bounds of a quotient of integers with a positive divisor. *)
Lemma quotient_le (a b c : Z) :
  (0 < b)%Z → (a ≤ c * b)%Z → inject_Z a / inject_Z b <= inject_Z c.
Proof.
  intros Hb H. apply Qle_shift_div_r.
  - change 0 with (inject_Z 0). now rewrite <- Zlt_Qlt.
  - now rewrite <- inject_Z_mult, <- Zle_Qle.
Qed.

Lemma quotient_ge (a b c : Z) :
  (0 < b)%Z → (c * b ≤ a)%Z → inject_Z c <= inject_Z a / inject_Z b.
Proof.
  intros Hb H. apply Qle_shift_div_l.
  - change 0 with (inject_Z 0). now rewrite <- Zlt_Qlt.
  - now rewrite <- inject_Z_mult, <- Zle_Qle.
Qed.

End Rounding.

(** ** [analyze_article_text] *)

Section Analysis.

Variable sent_tokenize : string → list string.
Variable word_tokenize : string → list string.
Variable dict : gmap string (list (list string)).

Local Abbreviation analyze :=
  (analyze_article_text sent_tokenize word_tokenize dict).
Local Abbreviation clean_words text :=
  (filter (λ word, Is_true (Py.isalpha word)) (word_tokenize text)).

Implicit Types (text : string) (positive_words negative_words : gset string).

Lemma len_nonneg {A} (l : list A) : 0 ≤ Py.len l.
Proof. unfold Py.len. lia. Qed.

Lemma len_zero {A} (l : list A) : Py.len l = 0 ↔ l = [].
Proof.
  unfold Py.len. destruct l; simpl; split; try reflexivity; try lia.
  discriminate.
Qed.

(** *** The sentiment loop *)

Lemma sentiment_loop positive_words negative_words
    (l : list string) (p n : Z) :
  fold_left (sentiment_step positive_words negative_words) l (p, n)
  = (p + Spec.score positive_words l, n + Spec.score negative_words l).
Proof.
  revert p n. unfold Spec.score, Py.len.
  induction l as [|w l IH]; intros p n; simpl.
  - f_equal; lia.
  - rewrite IH. rewrite !filter_cons.
    destruct (decide (Py.lower w ∈ positive_words)) as [Hp | Hp];
      [rewrite (bool_decide_eq_true_2 _ Hp)
      | rewrite (bool_decide_eq_false_2 _ Hp)];
      (destruct (decide (Py.lower w ∈ negative_words)) as [Hn | Hn];
        [rewrite (bool_decide_eq_true_2 _ Hn)
        | rewrite (bool_decide_eq_false_2 _ Hn)]);
      simpl; f_equal; lia.
Qed.

Lemma score_bounds (lexicon : gset string) (l : list string) :
  0 ≤ Spec.score lexicon l ≤ Py.len l.
Proof.
  unfold Spec.score, Py.len. split; [lia |].
  apply inj_le, length_filter.
Qed.

(** A word of two disjoint lexicons counts once at most. *)
Lemma score_disjoint positive_words negative_words (l : list string) :
  positive_words ## negative_words →
  Spec.score positive_words l + Spec.score negative_words l ≤ Py.len l.
Proof.
  intros Hdisj. unfold Spec.score, Py.len.
  induction l as [|w l IH]; simpl; [lia |].
  rewrite !filter_cons.
  destruct (decide (Py.lower w ∈ positive_words)) as [Hp | Hp];
    destruct (decide (Py.lower w ∈ negative_words)) as [Hn | Hn];
    simpl; try lia.
  exfalso. exact (Hdisj _ Hp Hn).
Qed.

(** *** The syllable loop *)

Lemma stressed_sounds_raise (variant : list string) (e : exn) :
  stressed_sounds variant = Raise e → e = IndexError.
Proof.
  induction variant as [|sound rest IH]; simpl; [discriminate |].
  destruct (Py.last_char sound); [| now intros [= <-]].
  destruct (stressed_sounds rest); simpl; [discriminate |].
  intros [= <-]. now apply IH.
Qed.

Lemma count_syllables_raise (word : string) (e : exn) :
  count_syllables dict word = Raise e → e = IndexError.
Proof.
  unfold count_syllables.
  destruct (dict !! Py.lower word) as [variants|]; [| discriminate].
  destruct variants as [|variant rest]; simpl; [now intros [= <-] |].
  destruct (stressed_sounds variant) eqn:Hs; simpl; [discriminate |].
  intros [= <-]. now apply stressed_sounds_raise in Hs.
Qed.

Lemma syllable_loop_raise (l : list string) (st : Z * Z) (e : exn) :
  syllable_loop dict l st = Raise e → e = IndexError.
Proof.
  revert st. induction l as [|w l IH]; intros [c t]; simpl; [discriminate |].
  destruct (count_syllables dict w) eqn:Hw; simpl.
  - apply IH.
  - intros [= <-]. now apply count_syllables_raise in Hw.
Qed.

Lemma syllable_loop_bounds (l : list string) (c t c' t' : Z) :
  syllable_loop dict l (c, t) = Ok (c', t') →
  c ≤ c' ≤ c + Py.len l.
Proof.
  revert c t. unfold Py.len.
  induction l as [|w l IH]; intros c t; simpl.
  - intros [= <- <-]. lia.
  - destruct (count_syllables dict w) as [n|]; simpl; [| discriminate].
    intros H. apply IH in H. destruct (2 <? n); lia.
Qed.

Lemma syllable_loop_spec (l : list string) (c t : Z) :
  Spec.dict_ok dict →
  syllable_loop dict l (c, t)
  = Ok (c + Spec.complexWordCount dict l, t + Spec.totalSyllables dict l).
Proof.
  intros Hdict. revert c t.
  unfold Spec.complexWordCount, Spec.is_complex, Py.len.
  induction l as [|w l IH]; intros c t; simpl.
  - do 2 f_equal; lia.
  - rewrite count_syllables_spec by exact Hdict. simpl.
    rewrite IH. destruct (2 <? Spec.syllables dict w); simpl;
      do 2 f_equal; lia.
Qed.

(** *** The function as a whole *)

(** After the zero-count test no division can fail: the function is the
    syllable loop followed by the record in closed form. *)
Lemma analyze_unfold text positive_words negative_words :
  analyze text positive_words negative_words
  = let W := Py.len (clean_words text) in
    let S := Py.len (sent_tokenize text) in
    if (W =? 0) || (S =? 0) then Ok Insufficient
    else
      '(C, T) ← syllable_loop dict (clean_words text) (0, 0);
      Ok (Full (metric_record
                  (Spec.score positive_words (clean_words text))
                  (Spec.score negative_words (clean_words text))
                  W S C T
                  (Py.len (Re.findall text))
                  (total_chars (clean_words text)))).
Proof.
  unfold analyze_article_text. cbv zeta.
  destruct (Py.len (clean_words text) =? 0) eqn:HW; [reflexivity |].
  destruct (Py.len (sent_tokenize text) =? 0) eqn:HS; [reflexivity |].
  cbn [orb]. rewrite sentiment_loop. rewrite !Z.add_0_l.
  unfold truediv. rewrite HW, HS.
  set (P := Spec.score positive_words _).
  set (N := Spec.score negative_words _).
  destruct (0 <? P + N) eqn:Hpos.
  - assert (HPN : (P + N =? 0) = false) by lia. rewrite HPN.
    cbn [mbind res_bind].
    destruct (syllable_loop dict _ (0, 0)) as [[C T]|e]; [| reflexivity].
    cbn [mbind res_bind]. unfold metric_record. now rewrite Hpos.
  - cbn [mbind res_bind].
    destruct (syllable_loop dict _ (0, 0)) as [[C T]|e]; [| reflexivity].
    cbn [mbind res_bind]. unfold metric_record. now rewrite Hpos.
Qed.

Lemma guard_false text :
  sent_tokenize text ≠ [] → clean_words text ≠ [] →
  (Py.len (clean_words text) =? 0) || (Py.len (sent_tokenize text) =? 0)
  = false.
Proof.
  intros HS HW. apply orb_false_iff. split; apply Z.eqb_neq;
    rewrite len_zero; assumption.
Qed.

Lemma guard_true text :
  sent_tokenize text = [] ∨ clean_words text = [] →
  (Py.len (clean_words text) =? 0) || (Py.len (sent_tokenize text) =? 0)
  = true.
Proof.
  intros [H | H]; rewrite H; [apply orb_true_r | reflexivity].
Qed.

(** C3. [analyze_article_text] returns the empty record exactly when the
    text has no sentence or no clean word, so never in place of an error or
    of a full record; with tokenizers that find no word or no sentence in
    the empty text, it returns it on the empty text for all lexicons. *)
Theorem analyze_insufficient_iff text positive_words negative_words :
  (analyze text positive_words negative_words = Ok Insufficient
   ↔ sent_tokenize text = [] ∨ clean_words text = [])
  ∧ (word_tokenize "" = [] ∨ sent_tokenize "" = [] →
     analyze "" positive_words negative_words = Ok Insufficient).
Proof.
  split.
  - rewrite analyze_unfold. cbv zeta. split.
    + intros H.
      destruct ((Py.len (clean_words text) =? 0)
                || (Py.len (sent_tokenize text) =? 0)) eqn:G.
      * apply orb_true_iff in G as [G | G];
          apply Z.eqb_eq, len_zero in G; [now right | now left].
      * destruct (syllable_loop dict (clean_words text) (0, 0))
          as [[C T]|e]; discriminate H.
    + intros H. now rewrite guard_true.
  - intros H. rewrite analyze_unfold. cbv zeta. rewrite guard_true;
      [reflexivity |].
    destruct H as [H | H]; [right | left]; [| exact H].
    now rewrite H.
Qed.

(** C2. On an input with a sentence and a clean word no division fails:
    both divisors, the number of clean words and the number of sentences,
    are not zero, [ZeroDivisionError] is never raised, and with a
    dictionary of the data model the full record is returned. *)
Theorem analyze_total text positive_words negative_words :
  sent_tokenize text ≠ [] → clean_words text ≠ [] →
  Py.len (clean_words text) ≠ 0
  ∧ Py.len (sent_tokenize text) ≠ 0
  ∧ analyze text positive_words negative_words ≠ Raise ZeroDivisionError
  ∧ analyze text positive_words negative_words ≠ Ok Insufficient
  ∧ (Spec.dict_ok dict →
     ∃ r, analyze text positive_words negative_words = Ok (Full r)).
Proof.
  intros HS HW.
  split; [now rewrite len_zero |]. split; [now rewrite len_zero |].
  rewrite analyze_unfold. cbv zeta. rewrite guard_false by assumption.
  split; [| split].
  - destruct (syllable_loop dict (clean_words text) (0, 0)) as [[C T]|e]
      eqn:Hloop; [discriminate |].
    apply syllable_loop_raise in Hloop. subst e. discriminate.
  - destruct (syllable_loop dict (clean_words text) (0, 0)) as [[C T]|e];
      discriminate.
  - intros Hdict. rewrite syllable_loop_spec by exact Hdict.
    eexists. reflexivity.
Qed.

(** A full record is the closed form on counts within their bounds. *)
Lemma analyze_full_inv text positive_words negative_words r :
  analyze text positive_words negative_words = Ok (Full r) →
  ∃ C T,
    r = metric_record
          (Spec.score positive_words (clean_words text))
          (Spec.score negative_words (clean_words text))
          (Py.len (clean_words text)) (Py.len (sent_tokenize text)) C T
          (Py.len (Re.findall text)) (total_chars (clean_words text))
    ∧ 0 < Py.len (clean_words text)
    ∧ 0 < Py.len (sent_tokenize text)
    ∧ 0 ≤ C ≤ Py.len (clean_words text).
Proof.
  rewrite analyze_unfold. cbv zeta.
  destruct ((Py.len (clean_words text) =? 0)
            || (Py.len (sent_tokenize text) =? 0)) eqn:G; [discriminate |].
  apply orb_false_iff in G as [GW GS].
  apply Z.eqb_neq in GW, GS.
  pose proof (len_nonneg (clean_words text)).
  pose proof (len_nonneg (sent_tokenize text)).
  destruct (syllable_loop dict (clean_words text) (0, 0)) as [[C T]|e]
    eqn:Hloop; [| discriminate].
  apply syllable_loop_bounds in Hloop.
  cbn [mbind res_bind]. intros [= <-]. exists C, T.
  repeat split; lia.
Qed.

Lemma percentage_bounds (C W : Z) :
  0 < W → 0 ≤ C ≤ W →
  (inject_Z 0 <= inject_Z C / inject_Z W * 100
   ∧ inject_Z C / inject_Z W * 100 <= inject_Z 100)%Q.
Proof.
  intros HW HC. split.
  - apply Qmult_le_0_compat; [| discriminate].
    apply (quotient_ge C W 0); lia.
  - apply Qle_trans with (y := (inject_Z 1 * 100)%Q); [| discriminate].
    apply Qmult_le_compat_r; [| discriminate].
    apply quotient_le; lia.
Qed.

(** C1, as the code has it.  In a full record the complex words are at
    most the words, the percentage of complex words is in [0, 100], the
    polarity in [-1, 1] and the subjectivity is not negative.  Both
    lexicons are tested on every word, so a word of both counts twice: the
    sentiment words are at most twice the words and the subjectivity at
    most 2; with disjoint lexicons they are at most the words and the
    subjectivity at most 1. *)
Theorem analyze_invariants text positive_words negative_words r :
  analyze_article_text sent_tokenize word_tokenize dict
    text positive_words negative_words = Ok (Full r) →
  COMPLEX_WORD_COUNT r ≤ WORD_COUNT r
  ∧ POSITIVE_SCORE r + NEGATIVE_SCORE r ≤ 2 * WORD_COUNT r
  ∧ (0 <= PERCENTAGE_OF_COMPLEX_WORDS r <= 100)%Q
  ∧ (inject_Z (-1) <= POLARITY_SCORE r <= 1)%Q
  ∧ (0 <= SUBJECTIVITY_SCORE r <= 2)%Q
  ∧ (positive_words ## negative_words →
     POSITIVE_SCORE r + NEGATIVE_SCORE r ≤ WORD_COUNT r
     ∧ (SUBJECTIVITY_SCORE r <= 1)%Q).
Proof.
  intros H. apply analyze_full_inv in H as (C & T & -> & HW & HS & HC).
  pose proof (score_bounds positive_words (clean_words text)) as HP.
  pose proof (score_bounds negative_words (clean_words text)) as HN.
  set (P := Spec.score positive_words _) in *.
  set (N := Spec.score negative_words _) in *.
  set (W := Py.len (clean_words text)) in *.
  cbn [metric_record COMPLEX_WORD_COUNT WORD_COUNT POSITIVE_SCORE
       NEGATIVE_SCORE PERCENTAGE_OF_COMPLEX_WORDS POLARITY_SCORE
       SUBJECTIVITY_SCORE].
  split; [lia |]. split; [lia |].
  destruct (percentage_bounds C W HW HC) as [Hp0 Hp100].
  split; [split; [now apply round3_ge | now apply (round3_le _ 100)] |].
  split; [| split].
  - destruct (0 <? P + N) eqn:Hpos.
    + split; [apply round3_ge, quotient_ge | apply (round3_le _ 1), quotient_le];
        lia.
    + split; [apply round3_ge | apply (round3_le _ 1)]; discriminate.
  - destruct (0 <? P + N) eqn:Hpos.
    + split; [apply (round3_ge _ 0), quotient_ge
             | apply (round3_le _ 2), quotient_le]; lia.
    + split; [apply (round3_ge _ 0) | apply (round3_le _ 2)]; discriminate.
  - intros Hdisj.
    pose proof (score_disjoint _ _ (clean_words text) Hdisj) as HPN.
    fold P N W in HPN. split; [exact HPN |].
    destruct (0 <? P + N) eqn:Hpos.
    + apply (round3_le _ 1), quotient_le; lia.
    + apply (round3_le _ 1). discriminate.
Qed.


(** C9. The personal pronouns of the record are the whole-word
    occurrences, compared without case, of I, we, my, ours and us in the
    text that was passed, found in the text itself and not in the clean
    words; for "I love this and we love that" with the positive lexicon
    {love} and no negative word the positive score is 2 and the personal
    pronouns are 2. *)
Theorem personal_pronouns_whole_words text positive_words negative_words :
  Py.len (Re.findall text) = Spec.personalPronouns text
  ∧ (∀ r, analyze text positive_words negative_words = Ok (Full r) →
          PERSONAL_PRONOUNS r = Spec.personalPronouns text)
  ∧ (word_tokenize "I love this and we love that"
       = ["I"; "love"; "this"; "and"; "we"; "love"; "that"] →
     sent_tokenize "I love this and we love that" ≠ [] →
     Spec.dict_ok dict →
     ∃ r, analyze "I love this and we love that" {["love"]} ∅ = Ok (Full r)
          ∧ POSITIVE_SCORE r = 2 ∧ PERSONAL_PRONOUNS r = 2)
  ∧ Re.findall "(We) saw US, my_ bus; I'm" = ["We"; "US"; "I"].
Proof.
  split; [apply findall_personal_pronouns |].
  split; [| split; [| reflexivity]].
  - intros r H. apply analyze_full_inv in H as (C & T & -> & _).
    apply findall_personal_pronouns.
  - intros Hwords Hsents Hdict.
    assert (Hclean : clean_words "I love this and we love that"
                     = ["I"; "love"; "this"; "and"; "we"; "love"; "that"])
      by now rewrite Hwords.
    rewrite analyze_unfold. cbv zeta.
    rewrite guard_false by (rewrite ?Hclean; easy).
    rewrite syllable_loop_spec by exact Hdict. cbn [mbind res_bind].
    eexists. split; [reflexivity |].
    cbn [metric_record POSITIVE_SCORE PERSONAL_PRONOUNS].
    rewrite Hclean. split; reflexivity.
Qed.

End Analysis.

(** ** Runs on small texts *)

Section Runs.

Local Abbreviation run :=
  (analyze_article_text Sample.sent_tokenize Sample.word_tokenize).

(** The word "good" in both lexicons counts twice in a text of one
    word: two sentiment words, one word, subjectivity 2. *)
Lemma sentiment_words_exceed_words :
  ∃ r, run ∅ "good" {["good"]} {["good"]} = Ok (Full r)
       ∧ POSITIVE_SCORE r = 1 ∧ NEGATIVE_SCORE r = 1 ∧ WORD_COUNT r = 1
       ∧ ¬ (POSITIVE_SCORE r + NEGATIVE_SCORE r ≤ WORD_COUNT r)
       ∧ (SUBJECTIVITY_SCORE r == 2)%Q
       ∧ ¬ (SUBJECTIVITY_SCORE r <= 1)%Q.
Proof.
  eexists. split; [vm_compute; reflexivity |].
  cbn [POSITIVE_SCORE NEGATIVE_SCORE WORD_COUNT SUBJECTIVITY_SCORE].
  repeat split; try reflexivity.
  - lia.
  - intros H. now apply H.
Qed.

Lemma analyze_invariants_witness :
  ∃ r, run Sample.cmu "The cat is good. It is not bad." {["good"]} {["bad"]}
       = Ok (Full r)
       ∧ POSITIVE_SCORE r + NEGATIVE_SCORE r ≤ WORD_COUNT r.
Proof.
  destruct (run Sample.cmu "The cat is good. It is not bad."
              {["good"]} {["bad"]}) as [[|r]|e] eqn:E;
    try (vm_compute in E; discriminate E).
  exists r. split; [reflexivity |].
  apply (analyze_invariants _ _ _ _ _ _ r E).
  intros x Hx Hy. apply elem_of_singleton in Hx, Hy.
  rewrite Hx in Hy. discriminate Hy.
Defined.

Lemma analyze_total_witness :
  ∃ r, run Sample.cmu "Hmm. The cat sat." ∅ ∅ = Ok (Full r).
Proof.
  apply (analyze_total Sample.sent_tokenize Sample.word_tokenize Sample.cmu
           "Hmm. The cat sat." ∅ ∅).
  - vm_compute. discriminate.
  - vm_compute. discriminate.
  - unfold Sample.cmu. apply map_Forall_insert_2; [exact I |].
    apply map_Forall_singleton. exact I.
Defined.

Lemma analyze_insufficient_iff_witness :
  run Sample.cmu "" {["good"]} {["bad"]} = Ok Insufficient.
Proof.
  apply (analyze_insufficient_iff Sample.sent_tokenize Sample.word_tokenize
           Sample.cmu "" {["good"]} {["bad"]}).
  left. reflexivity.
Defined.



Lemma personal_pronouns_whole_words_witness :
  ∃ r, run Sample.cmu "I love this and we love that" {["love"]} ∅
       = Ok (Full r)
       ∧ POSITIVE_SCORE r = 2 ∧ PERSONAL_PRONOUNS r = 2.
Proof.
  apply (personal_pronouns_whole_words Sample.sent_tokenize
           Sample.word_tokenize Sample.cmu "" ∅ ∅).
  - vm_compute. reflexivity.
  - vm_compute. discriminate.
  - unfold Sample.cmu. apply map_Forall_insert_2; [exact I |].
    apply map_Forall_singleton. exact I.
Defined.

End Runs.

(** ** Trimming *)

Section Trimming.

Lemma isspace_tolower (c : ascii) : Py.isspace (Py.tolower c) = Py.isspace c.
Proof. destruct c as [[] [] [] [] [] [] [] []]; reflexivity. Qed.

Lemma tolower_idem (c : ascii) : Py.tolower (Py.tolower c) = Py.tolower c.
Proof. destruct c as [[] [] [] [] [] [] [] []]; reflexivity. Qed.

Lemma lower_idem (s : string) : Py.lower (Py.lower s) = Py.lower s.
Proof.
  unfold Py.lower. induction s as [|c s IH]; [reflexivity |].
  simpl. now rewrite tolower_idem, IH.
Qed.

Lemma lower_cons (c : ascii) (s : string) :
  Py.lower (String c s) = String (Py.tolower c) (Py.lower s).
Proof. reflexivity. Qed.

Lemma lstrip_lower (s : string) :
  Py.lstrip (Py.lower s) = Py.lower (Py.lstrip s).
Proof.
  induction s as [|c s IH]; [reflexivity |].
  rewrite lower_cons. simpl. rewrite isspace_tolower.
  destruct (Py.isspace c); [exact IH | reflexivity].
Qed.

Lemma rstrip_lower (s : string) :
  Py.rstrip (Py.lower s) = Py.lower (Py.rstrip s).
Proof.
  induction s as [|c s IH]; [reflexivity |].
  rewrite lower_cons. simpl. rewrite IH, isspace_tolower.
  destruct (Py.rstrip s); simpl; [now destruct (Py.isspace c) | reflexivity].
Qed.

(** Trimming and lower-casing commute. *)
Lemma strip_lower (s : string) : Py.strip (Py.lower s) = Py.lower (Py.strip s).
Proof. unfold Py.strip. now rewrite lstrip_lower, rstrip_lower. Qed.

Lemma lstrip_head (s : string) (c : ascii) :
  Py.head_char (Py.lstrip s) = Some c → Py.isspace c = false.
Proof.
  induction s as [|d s IH]; simpl; [discriminate |].
  destruct (Py.isspace d) eqn:Hd; [exact IH |].
  simpl. now intros [= <-].
Qed.

Lemma lstrip_fixed (s : string) :
  (∀ c, Py.head_char s = Some c → Py.isspace c = false) → Py.lstrip s = s.
Proof.
  destruct s as [|d s]; [reflexivity |].
  intros H. simpl. now rewrite (H d eq_refl).
Qed.

Lemma rstrip_head (s : string) (c : ascii) :
  Py.head_char s = Some c → Py.isspace c = false →
  Py.head_char (Py.rstrip s) = Some c.
Proof.
  destruct s as [|d s]; simpl; [discriminate |].
  intros [= ->] Hc. rewrite Hc. now destruct (Py.rstrip s).
Qed.

Lemma rstrip_cons (c : ascii) (s : string) :
  Py.rstrip (String c s)
  = match Py.rstrip s with
    | EmptyString => if Py.isspace c then "" else String c ""
    | r => String c r
    end.
Proof. reflexivity. Qed.

Lemma rstrip_idem (s : string) : Py.rstrip (Py.rstrip s) = Py.rstrip s.
Proof.
  induction s as [|c s IH]; [reflexivity |].
  rewrite rstrip_cons. destruct (Py.rstrip s) as [|d r] eqn:Hr.
  - destruct (Py.isspace c) eqn:Hc; [reflexivity |].
    simpl. now rewrite Hc.
  - now rewrite rstrip_cons, IH.
Qed.

Lemma strip_idem (s : string) : Py.strip (Py.strip s) = Py.strip s.
Proof.
  unfold Py.strip. rewrite (lstrip_fixed (Py.rstrip _)).
  - apply rstrip_idem.
  - intros c Hc.
    destruct (Py.lstrip s) as [|d t] eqn:Ht; [discriminate Hc |].
    assert (Hd : Py.isspace d = false)
      by (apply (lstrip_head s); now rewrite Ht).
    rewrite (rstrip_head (String d t) d eq_refl Hd) in Hc.
    now injection Hc as <-.
Qed.

End Trimming.

(** ** [read_word_list] *)

Section WordList.

Lemma word_list_step_members (words : gset string) (line w : string) :
  w ∈ word_list_step words line ↔ w ∈ words ∨ word_of_line line w.
Proof.
  unfold word_list_step, word_of_line.
  destruct (String.eqb_spec (Py.lower (Py.strip line)) "") as [He | Hne];
    simpl.
  - split; [now left | intros [H | (-> & H & _)]; [exact H | congruence]].
  - destruct (Py.startswith (Py.lower (Py.strip line)) ";") eqn:Hs; simpl.
    + split; [now left | intros [H | (-> & _ & H)]; [exact H | congruence]].
    + rewrite elem_of_union, elem_of_singleton. split.
      * intros [H | ->]; [now left | now right].
      * intros [H | (-> & _)]; [now left | now right].
Qed.

Lemma word_list_loop_members (lines : list string) (words : gset string)
    (w : string) :
  w ∈ fold_left word_list_step lines words
  ↔ w ∈ words ∨ ∃ line, line ∈ lines ∧ word_of_line line w.
Proof.
  revert words. induction lines as [|l lines IH]; intros words; simpl.
  - split; [now left | intros [H | (line & Hin & _)]; [exact H |]].
    now apply not_elem_of_nil in Hin.
  - rewrite IH, word_list_step_members. split.
    + intros [[H | H] | (line & Hin & H)].
      * now left.
      * right. exists l. split; [apply list_elem_of_here | exact H].
      * right. exists line. split; [now apply list_elem_of_further | exact H].
    + intros [H | (line & Hin & H)]; [now left; left |].
      apply elem_of_cons in Hin as [-> | Hin]; [left; now right |].
      right. now exists line.
Qed.

(** The words of the list are the trimmed, lower-cased forms of the
    lines that the iteration over the file yields before it ends or
    raises, those that are not blank and do not begin with a semicolon
    once trimmed; a file that cannot be opened gives no word. *)
Theorem read_word_list_members (file : option (list string)) (w : string) :
  w ∈ read_word_list file
  ↔ ∃ lines line, file = Some lines ∧ line ∈ lines ∧ word_of_line line w.
Proof.
  destruct file as [lines|]; simpl.
  - rewrite word_list_loop_members. split.
    + intros [H | (line & Hin & H)]; [now apply not_elem_of_empty in H |].
      now exists lines, line.
    + intros (lines' & line & [= <-] & Hin & H). right. now exists line.
  - split; [intros H; now apply not_elem_of_empty in H |].
    now intros (lines & line & [=] & _).
Qed.

(** Every word of the list is in normal form: not empty, no comment,
    lower-cased and trimmed. *)
Theorem read_word_list_normalised (file : option (list string)) (w : string) :
  w ∈ read_word_list file →
  w ≠ "" ∧ Py.startswith w ";" = false
  ∧ Py.lower w = w ∧ Py.strip w = w.
Proof.
  intros H.
  assert (Hw : ∃ line, word_of_line line w).
  { destruct file as [lines|]; simpl in H;
      [| now apply not_elem_of_empty in H].
    apply word_list_loop_members in H as [H | (line & _ & H)];
      [now apply not_elem_of_empty in H | now exists line]. }
  destruct Hw as (line & -> & Hne & Hs).
  repeat split; try assumption.
  - apply lower_idem.
  - now rewrite strip_lower, strip_idem.
Qed.

Lemma read_word_list_normalised_witness :
  Py.lower "a+" = "a+" ∧ Py.strip "good" = "good".
Proof.
  split.
  - apply (read_word_list_normalised (Some Demo.lexicon_lines) "a+").
    refine (bool_decide_unpack _ _). vm_compute. exact I.
  - apply (read_word_list_normalised (Some Demo.lexicon_lines) "good").
    refine (bool_decide_unpack _ _). vm_compute. exact I.
Defined.

Lemma word_of_line_lower (line w : string) :
  word_of_line line w
  ↔ w = Py.strip (Py.lower line) ∧ w ≠ "" ∧ Py.startswith w ";" = false.
Proof. unfold word_of_line. now rewrite strip_lower. Qed.

(** The list depends on the lines that the iteration yields only through
    their lower-cased forms, and neither on their order nor on
    repetitions: two files that yield the same lower-cased lines give the
    same list. *)
Theorem read_word_list_case (lines1 lines2 : list string) :
  (∀ x, (∃ a, a ∈ lines1 ∧ Py.lower a = x)
        ↔ (∃ b, b ∈ lines2 ∧ Py.lower b = x)) →
  read_word_list (Some lines1) = read_word_list (Some lines2).
Proof.
  intros Hsame. apply leibniz_equiv, set_equiv. intros w. simpl.
  rewrite !word_list_loop_members.
  assert (Hone : ∀ l1 l2 : list string,
    (∀ x, (∃ a, a ∈ l1 ∧ Py.lower a = x) → (∃ b, b ∈ l2 ∧ Py.lower b = x)) →
    (∃ line, line ∈ l1 ∧ word_of_line line w) →
    (∃ line, line ∈ l2 ∧ word_of_line line w)).
  { intros l1 l2 Hsub (a & Hin & Ha).
    destruct (Hsub (Py.lower a)) as (b & Hb & Heq); [now exists a |].
    exists b. split; [exact Hb |].
    apply word_of_line_lower. rewrite Heq. now apply word_of_line_lower. }
  split; (intros [H | H]; [now left | right]).
  - apply (Hone lines1 lines2); [intros x; apply Hsame | exact H].
  - apply (Hone lines2 lines1); [intros x; apply Hsame | exact H].
Qed.

Lemma read_word_list_case_witness :
  read_word_list (Some ["GOOD"; " bad"; "Good"])
  = read_word_list (Some [" BAD"; "good"]).
Proof.
  apply (read_word_list_case ["GOOD"; " bad"; "Good"] [" BAD"; "good"]).
  intros x. split.
  - intros (a & Hin & <-).
    repeat (apply elem_of_cons in Hin as [-> | Hin]);
      [exists "good" | exists " BAD" | exists "good" |
       now apply not_elem_of_nil in Hin];
      (split; [| reflexivity]).
    + apply list_elem_of_further, list_elem_of_here.
    + apply list_elem_of_here.
    + apply list_elem_of_further, list_elem_of_here.
  - intros (b & Hin & <-).
    repeat (apply elem_of_cons in Hin as [-> | Hin]);
      [exists " bad" | exists "GOOD" | now apply not_elem_of_nil in Hin];
      (split; [| reflexivity]).
    + apply list_elem_of_further, list_elem_of_here.
    + apply list_elem_of_here.
Defined.

End WordList.

(** ** [read_stopwords] *)

Section Stopwords.

Implicit Types (folder : list (string * text_file)) (all : list string).

Lemma stopwords_step_decoded all name file :
  stopwords_step all (name, file)
  = if Py.endswith name ".txt"
    then content ← decoded file; Some (all ++ Py.split content)%list
    else Some all.
Proof.
  unfold stopwords_step, decoded.
  destruct (Py.endswith name ".txt"); [| reflexivity].
  now destruct (read_utf8 file).
Qed.

(** What the loop has gathered when it ends. *)
Lemma stopwords_loop_members folder all all' (w : string) :
  stopwords_loop folder all = Some all' →
  w ∈ all'
  ↔ w ∈ all ∨ ∃ name file content,
                 stopword_source folder name file content ∧ w ∈ Py.split content.
Proof.
  revert all. induction folder as [|[name file] folder IH]; intros all.
  - simpl. intros [= <-]. split; [now left |].
    intros [H | (n & f & c & (Hin & _) & _)]; [exact H |].
    now apply not_elem_of_nil in Hin.
  - cbn [stopwords_loop]. rewrite stopwords_step_decoded.
    destruct (Py.endswith name ".txt") eqn:Htxt.
    + destruct (decoded file) as [content|] eqn:Hdec; [| discriminate].
      cbn [mbind option_bind]. intros H. rewrite (IH _ H), elem_of_app.
      split.
      * intros [[Hw | Hw] | (n & f & c & (Hin & Hn & Hc) & Hw)].
        -- now left.
        -- right. exists name, file, content.
           repeat split; [apply list_elem_of_here | | |]; assumption.
        -- right. exists n, f, c.
           repeat split; [now apply list_elem_of_further | | |]; assumption.
      * intros [Hw | (n & f & c & (Hin & Hn & Hc) & Hw)]; [now left; left |].
        apply elem_of_cons in Hin as [[= -> ->] | Hin].
        -- left. right. rewrite Hdec in Hc. now injection Hc as ->.
        -- right. exists n, f, c. now repeat split.
    + cbn [mbind option_bind]. intros H. rewrite (IH _ H). split.
      * intros [Hw | (n & f & c & (Hin & Hn & Hc) & Hw)]; [now left |].
        right. exists n, f, c.
        repeat split; [now apply list_elem_of_further | | |]; assumption.
      * intros [Hw | (n & f & c & (Hin & Hn & Hc) & Hw)]; [now left |].
        apply elem_of_cons in Hin as [[= -> ->] | Hin]; [congruence |].
        right. exists n, f, c. now repeat split.
Qed.

(** The loop raises exactly on a text file that neither read can read. *)
Lemma stopwords_loop_none folder all :
  stopwords_loop folder all = None
  ↔ ∃ name file, (name, file) ∈ folder ∧ Py.endswith name ".txt" = true
                 ∧ decoded file = None.
Proof.
  revert all. induction folder as [|[name file] folder IH]; intros all.
  - simpl. split; [discriminate |].
    intros (n & f & Hin & _). now apply not_elem_of_nil in Hin.
  - cbn [stopwords_loop]. rewrite stopwords_step_decoded.
    destruct (Py.endswith name ".txt") eqn:Htxt.
    + destruct (decoded file) as [content|] eqn:Hdec; cbn [mbind option_bind].
      * rewrite IH. split.
        -- intros (n & f & Hin & H). exists n, f.
           split; [now apply list_elem_of_further | exact H].
        -- intros (n & f & Hin & Hn & Hd).
           apply elem_of_cons in Hin as [[= -> ->] | Hin]; [congruence |].
           now exists n, f.
      * split; [intros _ | reflexivity].
        exists name, file. repeat split; [apply list_elem_of_here | |];
          assumption.
    + cbn [mbind option_bind]. rewrite IH. split.
      * intros (n & f & Hin & H). exists n, f.
        split; [now apply list_elem_of_further | exact H].
      * intros (n & f & Hin & Hn & Hd).
        apply elem_of_cons in Hin as [[= -> ->] | Hin]; [congruence |].
        now exists n, f.
Qed.

(** The stopwords returned are, without repetition, the whitespace
    tokens of the files of the folder whose name ends in ".txt", each read
    as utf-8 or, when that read fails, as latin-1; other files are not
    read.  The tokens are taken as they are: none is empty or has
    whitespace, and their case is kept. *)
Theorem read_stopwords_members folder (stopwords : list string) :
  read_stopwords folder = Some stopwords →
  NoDup stopwords
  ∧ Forall (Py.is_token Py.isspace) stopwords
  ∧ ∀ w, w ∈ stopwords
         ↔ ∃ name file content,
             stopword_source folder name file content ∧ w ∈ Py.split content.
Proof.
  unfold read_stopwords.
  destruct (stopwords_loop folder []) as [all|] eqn:Hloop; [| discriminate].
  cbn [mbind option_bind]. intros [= <-].
  assert (Hmem : ∀ w, w ∈ elements (list_to_set all : gset string)
                      ↔ ∃ name file content,
                          stopword_source folder name file content
                          ∧ w ∈ Py.split content).
  { intros w. rewrite elem_of_elements, elem_of_list_to_set.
    rewrite (stopwords_loop_members _ _ _ w Hloop). split.
    - intros [H | H]; [now apply not_elem_of_nil in H | exact H].
    - now right. }
  split; [apply NoDup_elements |]. split; [| exact Hmem].
  apply Forall_forall. intros w Hw.
  apply Hmem in Hw as (name & file & content & _ & Hw).
  revert w Hw. apply Forall_forall, split_tokens.
Qed.

Lemma read_stopwords_members_witness :
  NoDup ["of"; "we"; "us"; "AND"; "the"].
Proof.
  apply (read_stopwords_members Demo.folder ["of"; "we"; "us"; "AND"; "the"]).
  vm_compute. reflexivity.
Defined.

(** Once the folder is listed, the loop fails exactly on a ".txt" file
    that can be read neither as utf-8 nor as latin-1. *)
Lemma read_stopwords_none folder :
  read_stopwords folder = None
  ↔ ∃ name file, (name, file) ∈ folder ∧ Py.endswith name ".txt" = true
                 ∧ read_utf8 file = None ∧ read_latin1 file = None.
Proof.
  unfold read_stopwords.
  destruct (stopwords_loop folder []) as [all|] eqn:Hloop;
    cbn [mbind option_bind].
  - split; [discriminate |]. intros (n & f & Hin & Hn & Hu & Hl).
    assert (H : stopwords_loop folder [] = None).
    { apply stopwords_loop_none. exists n, f. repeat split; try assumption.
      unfold decoded. now rewrite Hu. }
    congruence.
  - split; [intros _ | reflexivity].
    apply stopwords_loop_none in Hloop as (n & f & Hin & Hn & Hd).
    exists n, f. unfold decoded in Hd.
    destruct (read_utf8 f); [discriminate |]. now repeat split.
Qed.

(** The function fails as a whole, whatever the other files hold, exactly
    when the folder cannot be listed or has a ".txt" file that can be read
    neither as utf-8 nor as latin-1. *)
Theorem read_stopwords_fails_iff
    (listing : option (list (string * text_file))) :
  read_stopwords_listing listing = None
  ↔ listing = None
    ∨ ∃ folder name file,
        listing = Some folder
        ∧ (name, file) ∈ folder ∧ Py.endswith name ".txt" = true
        ∧ read_utf8 file = None ∧ read_latin1 file = None.
Proof.
  destruct listing as [folder|]; cbn [read_stopwords_listing mbind option_bind].
  - rewrite read_stopwords_none. split.
    + intros (name & file & H). right. now exists folder, name, file.
    + intros [[=] | (folder' & name & file & [= <-] & H)].
      now exists name, file.
  - split; [now left | reflexivity].
Qed.

End Stopwords.

(** ** More on [remove_stopwords_from_text] *)

Section Cleaning.

Implicit Types (text : string) (stopwords : list string).

(** Only the members of the stopword list matter. *)
Lemma remove_stopwords_same_members text stopwords1 stopwords2 :
  (∀ w, w ∈ stopwords1 ↔ w ∈ stopwords2) →
  remove_stopwords_from_text text stopwords1
  = remove_stopwords_from_text text stopwords2.
Proof.
  intros Hsame. rewrite !remove_stopwords_unfold. f_equal.
  apply list_filter_iff. intros token. now rewrite Hsame.
Qed.

(** The order in which the folder lists its files does not change what
    the stopwords remove. *)
Theorem stopword_listing_order_irrelevant
    (folder1 folder2 : list (string * text_file)) stopwords1 stopwords2 text :
  folder1 ≡ₚ folder2 →
  read_stopwords folder1 = Some stopwords1 →
  read_stopwords folder2 = Some stopwords2 →
  remove_stopwords_from_text text stopwords1
  = remove_stopwords_from_text text stopwords2.
Proof.
  intros Hperm H1 H2. apply remove_stopwords_same_members. intros w.
  unfold read_stopwords in H1, H2.
  destruct (stopwords_loop folder1 []) as [all1|] eqn:Hl1; [| discriminate].
  destruct (stopwords_loop folder2 []) as [all2|] eqn:Hl2; [| discriminate].
  cbn [mbind option_bind] in H1, H2.
  injection H1 as <-. injection H2 as <-.
  rewrite !elem_of_elements, !elem_of_list_to_set.
  rewrite (stopwords_loop_members _ _ _ w Hl1).
  rewrite (stopwords_loop_members _ _ _ w Hl2).
  unfold stopword_source.
  split; (intros [H | (n & f & c & (Hin & Hrest) & Hw)]; [now left | right]);
    exists n, f, c; (split; [split; [| exact Hrest] | exact Hw]).
  - now rewrite <- Hperm.
  - now rewrite Hperm.
Qed.

Lemma stopword_listing_order_irrelevant_witness :
  remove_stopwords_from_text "we and the cat"
    ["of"; "we"; "us"; "AND"; "the"]
  = remove_stopwords_from_text "we and the cat"
      ["of"; "we"; "us"; "AND"; "the"].
Proof.
  apply (stopword_listing_order_irrelevant Demo.folder (rev Demo.folder)).
  - apply Permutation_rev.
  - vm_compute. reflexivity.
  - vm_compute. reflexivity.
Defined.

(** Cleaning with one list and then with another is cleaning with both
    lists at once. *)
Theorem remove_stopwords_twice text stopwords1 stopwords2 :
  remove_stopwords_from_text
    (remove_stopwords_from_text text stopwords1) stopwords2
  = remove_stopwords_from_text text (stopwords1 ++ stopwords2).
Proof.
  rewrite (remove_stopwords_unfold (remove_stopwords_from_text _ _)).
  rewrite split_remove_stopwords, list_filter_filter.
  rewrite remove_stopwords_unfold. f_equal.
  apply list_filter_iff. intros token. rewrite elem_of_app. tauto.
Qed.

Lemma length_append (s t : string) :
  String.length (s +:+ t) = (String.length s + String.length t)%nat.
Proof.
  induction s as [|c s IH]; [reflexivity |].
  rewrite append_cons. simpl. now rewrite IH.
Qed.

Lemma join_cons (d w : string) (l : list string) :
  Py.join d (w :: l)
  = match l with
    | [] => w
    | _ => w +:+ d +:+ Py.join d l
    end.
Proof. now destruct l. Qed.

Lemma join_empty (l : list string) :
  Forall (λ w, w ≠ "") l → Py.join " " l = "" → l = [].
Proof.
  intros Hl. destruct Hl as [|w l Hw _]; [reflexivity |].
  rewrite join_cons. destruct l.
  - congruence.
  - intros H. apply (f_equal String.length) in H.
    rewrite !length_append in H. simpl in H. lia.
Qed.

(** The length of a join, at most one separator more per string. *)
Lemma join_length_cons (w : string) (l : list string) :
  (String.length (Py.join " " (w :: l))
   ≤ String.length w + 1 + String.length (Py.join " " l))%nat.
Proof.
  rewrite join_cons. destruct l; [lia |].
  rewrite !length_append. simpl. lia.
Qed.

Lemma join_length_tail (w : string) (l : list string) :
  (String.length (Py.join " " l) ≤ String.length (Py.join " " (w :: l)))%nat.
Proof.
  rewrite (join_cons _ w). destruct l; [simpl; lia |].
  rewrite !length_append. lia.
Qed.

Lemma join_length_filter (P : string → Prop) `{∀ x, Decision (P x)}
    (l : list string) :
  (String.length (Py.join " " (filter P l))
   ≤ String.length (Py.join " " l))%nat.
Proof.
  induction l as [|w l IH]; [reflexivity |].
  rewrite filter_cons. destruct (decide (P w)).
  - rewrite !join_cons. destruct l as [|w' l].
    + reflexivity.
    + destruct (filter P (w' :: l)) eqn:Hf.
      * rewrite !length_append. lia.
      * rewrite !length_append. lia.
  - etransitivity; [exact IH | apply join_length_tail].
Qed.

Lemma join_fields_length (sep : ascii → bool) (s cur : string) :
  (String.length (Py.join " " (Py.fields_go sep cur s))
   ≤ String.length cur + String.length s)%nat.
Proof.
  revert cur. induction s as [|c s IH]; intros cur.
  - destruct cur; simpl; lia.
  - cbn [Py.fields_go]. destruct (sep c).
    + specialize (IH ""). destruct cur as [|a cur].
      * simpl in *. lia.
      * cbn [Py.flush app].
        etransitivity; [apply join_length_cons |]. simpl in *. lia.
    + specialize (IH (cur +:+ String c "")).
      rewrite length_append in IH. simpl in *. lia.
Qed.

(** Cleaning never makes the text longer, and the clean text is empty
    exactly when every token is a stopword (an empty or blank text among
    them). *)
Theorem remove_stopwords_shrinks text stopwords :
  (String.length (remove_stopwords_from_text text stopwords)
   ≤ String.length text)%nat
  ∧ (remove_stopwords_from_text text stopwords = ""
     ↔ ∀ token, token ∈ Py.split text → Py.lower token ∈ stopwords).
Proof.
  rewrite remove_stopwords_unfold. split.
  - etransitivity; [apply join_length_filter |].
    apply (join_fields_length Py.isspace text "").
  - split.
    + intros H token Hin.
      apply join_empty in H.
      * destruct (decide (Py.lower token ∈ stopwords)) as [Hs | Hs];
          [exact Hs |].
        assert (Hk : token ∈ filter (λ t, Py.lower t ∉ stopwords)
                                    (Py.split text))
          by now apply list_elem_of_filter.
        rewrite H in Hk. now apply not_elem_of_nil in Hk.
      * eapply Forall_impl; [apply filter_tokens |]. now intros w [Hw _].
    + intros H.
      assert (Hnil : filter (λ t, Py.lower t ∉ stopwords) (Py.split text)
                     = []).
      { destruct (filter (λ t, Py.lower t ∉ stopwords) (Py.split text))
          as [|t l] eqn:Hf; [reflexivity |].
        assert (Ht : t ∈ filter (λ t, Py.lower t ∉ stopwords)
                                (Py.split text))
          by (rewrite Hf; apply list_elem_of_here).
        apply list_elem_of_filter in Ht as [Hn Hin].
        exfalso. now apply Hn, H. }
      now rewrite Hnil.
Qed.

End Cleaning.

(** ** Personal pronouns, token by token *)

Section PronounsByToken.

Lemma space_not_word (c : ascii) :
  Py.isspace c = true → Re.is_word_char c = false.
Proof. destruct c as [[] [] [] [] [] [] [] []]; intros H; now try discriminate H. Qed.

(** The count looks at the character before only to see whether it is a
    word character. *)
Lemma occurrences_go_prev (prev1 prev2 : option ascii) (s : string) :
  Re.is_w prev1 = Re.is_w prev2 →
  Spec.occurrences_go prev1 s = Spec.occurrences_go prev2 s.
Proof.
  intros H. destruct s as [|c s]; [reflexivity |].
  cbn [Spec.occurrences_go]. rewrite !pronoun_at_spec.
  unfold Re.at_boundary. now rewrite H.
Qed.

Lemma tolower_differs (c p : ascii) :
  Re.is_word_char c = false → Re.is_word_char (Py.tolower p) = true →
  Ascii.eqb (Py.tolower c) (Py.tolower p) = false.
Proof.
  intros Hc Hp. apply Ascii.eqb_neq. intros Heq.
  rewrite <- Heq, word_char_tolower in Hp. congruence.
Qed.

(** A literal of word characters is read up to a character that is not
    one and never across it. *)
Lemma match_literal_stops (lit a b : string) (d : ascii)
    (prev : option ascii) :
  Py.all_chars Re.is_word_char (Py.lower lit) = true →
  Re.is_word_char d = false →
  Re.match_literal lit prev (a +:+ String d b)
  = match Re.match_literal lit prev a with
    | Some (prev', rest) => Some (prev', rest +:+ String d b)
    | None => None
    end.
Proof.
  intros Hlit Hd. revert prev a Hlit.
  induction lit as [|p lit IH]; intros prev a Hlit; [reflexivity |].
  rewrite lower_cons in Hlit. cbn [Py.all_chars] in Hlit.
  apply andb_true_iff in Hlit as [Hp Hlit].
  destruct a as [|c a].
  - rewrite append_nil_l. cbn [Re.match_literal].
    now rewrite (tolower_differs d p Hd Hp).
  - rewrite append_cons. cbn [Re.match_literal].
    destruct (Ascii.eqb (Py.tolower c) (Py.tolower p)); [| reflexivity].
    now apply IH.
Qed.

Lemma word_ends_at_stops (lit a b : string) (d : ascii) :
  lit ≠ "" →
  Py.all_chars Re.is_word_char (Py.lower lit) = true →
  Re.is_word_char d = false →
  Spec.word_ends_at lit (a +:+ String d b) = Spec.word_ends_at lit a.
Proof.
  intros Hne Hlit Hd.
  rewrite <- (alternative_spec lit None (a +:+ String d b) Hne).
  rewrite <- (alternative_spec lit None a Hne).
  rewrite match_literal_stops by assumption.
  destruct (Re.match_literal lit None a) as [[prev' rest]|]; [| reflexivity].
  destruct rest as [|c rest]; [| reflexivity].
  rewrite append_nil_l. unfold Re.at_boundary. simpl. now rewrite Hd.
Qed.

Lemma pronouns_end_at_stops (a b : string) (d : ascii) :
  Re.is_word_char d = false →
  existsb (λ p, Spec.word_ends_at p (a +:+ String d b)) Spec.pronouns
  = existsb (λ p, Spec.word_ends_at p a) Spec.pronouns.
Proof.
  intros Hd. unfold Spec.pronouns. cbn [existsb].
  now rewrite !word_ends_at_stops by (discriminate || reflexivity || exact Hd).
Qed.

Lemma no_pronoun_ends_empty :
  existsb (λ p, Spec.word_ends_at p "") Spec.pronouns = false.
Proof. reflexivity. Qed.

(** The count of a text cut at a character that is no word character is
    the sum of the counts of the two parts. *)
Lemma occurrences_go_cut (a b : string) (d : ascii) (prev : option ascii) :
  Re.is_word_char d = false →
  Spec.occurrences_go prev (a +:+ String d b)
  = (Spec.occurrences_go prev a + Spec.occurrences_go None b)%nat.
Proof.
  intros Hd. revert prev. induction a as [|c a IH]; intros prev.
  - rewrite append_nil_l. cbn [Spec.occurrences_go].
    rewrite pronoun_at_spec.
    pose proof (pronouns_end_at_stops "" b d Hd) as Hends.
    rewrite append_nil_l in Hends.
    rewrite Hends, no_pronoun_ends_empty, andb_false_r. simpl.
    apply occurrences_go_prev. simpl. exact Hd.
  - rewrite append_cons. cbn [Spec.occurrences_go].
    rewrite IH. rewrite !pronoun_at_spec.
    pose proof (pronouns_end_at_stops (String c a) b d Hd) as Hends.
    rewrite append_cons in Hends. rewrite Hends.
    cbn [Py.head_char]. lia.
Qed.

Lemma personal_pronouns_cut (a b : string) (d : ascii) :
  Re.is_word_char d = false →
  Spec.personalPronouns (a +:+ String d b)
  = Spec.personalPronouns a + Spec.personalPronouns b.
Proof.
  intros Hd. unfold Spec.personalPronouns.
  rewrite occurrences_go_cut by exact Hd. lia.
Qed.

Lemma pronouns_in_app (l1 l2 : list string) :
  pronouns_in (l1 ++ l2) = pronouns_in l1 + pronouns_in l2.
Proof.
  unfold pronouns_in. induction l1 as [|w l1 IH]; simpl; [reflexivity |].
  rewrite IH. lia.
Qed.

Lemma pronouns_in_flush (cur : string) :
  pronouns_in (Py.flush cur) = Spec.personalPronouns cur.
Proof. destruct cur; [reflexivity |]. unfold pronouns_in. simpl. lia. Qed.

(** The count of a text is the sum of the counts of its runs between
    separators that are no word characters. *)
Lemma personal_pronouns_fields (sep : ascii → bool) (s cur : string) :
  (∀ c, sep c = true → Re.is_word_char c = false) →
  Spec.personalPronouns (cur +:+ s) = pronouns_in (Py.fields_go sep cur s).
Proof.
  intros Hsep. revert cur. induction s as [|c s IH]; intros cur.
  - rewrite append_nil_r. simpl. now rewrite pronouns_in_flush.
  - cbn [Py.fields_go]. destruct (sep c) eqn:Hc.
    + rewrite personal_pronouns_cut by now apply Hsep.
      rewrite pronouns_in_app, pronouns_in_flush.
      now rewrite <- (IH ""), append_nil_l.
    + now rewrite <- IH, append_snoc.
Qed.

Lemma personal_pronouns_split (text : string) :
  Spec.personalPronouns text = pronouns_in (Py.split text).
Proof.
  rewrite <- (append_nil_l text) at 1.
  apply personal_pronouns_fields, space_not_word.
Qed.

Lemma personal_pronouns_join (l : list string) :
  Spec.personalPronouns (Py.join " " l) = pronouns_in l.
Proof.
  induction l as [|w l IH]; [reflexivity |].
  rewrite join_cons. destruct l as [|w' l].
  - unfold pronouns_in. simpl. lia.
  - change (w +:+ " " +:+ Py.join " " (w' :: l))
      with (w +:+ String " " (Py.join " " (w' :: l))).
    rewrite personal_pronouns_cut by reflexivity.
    rewrite IH. reflexivity.
Qed.

Lemma pronouns_in_filter (P : string → Prop) `{∀ x, Decision (P x)}
    (l : list string) :
  0 ≤ pronouns_in (filter P l) ≤ pronouns_in l.
Proof.
  unfold pronouns_in.
  induction l as [|w l IH]; [simpl; lia |].
  rewrite filter_cons. unfold Spec.personalPronouns in *.
  destruct (decide (P w)); simpl; lia.
Qed.

End PronounsByToken.

(** ** More on [count_syllables] *)

Section SyllablesMore.

Variable dict : gmap string (list (list string)).

Lemma variant_ok_false (variant : list string) :
  Spec.variant_ok variant = false ↔ "" ∈ variant.
Proof.
  unfold Spec.variant_ok. induction variant as [|sound rest IH]; simpl.
  - split; [discriminate | intros H; now apply not_elem_of_nil in H].
  - rewrite andb_false_iff, IH, elem_of_cons, negb_false_iff, String.eqb_eq.
    split; (intros [H | H]; [left | right]); congruence.
Qed.

(** The comprehension raises as soon as a phoneme is empty. *)
Lemma stressed_sounds_empty_phoneme (variant : list string) :
  "" ∈ variant → stressed_sounds variant = Raise IndexError.
Proof.
  induction variant as [|sound rest IH]; intros H;
    [now apply not_elem_of_nil in H |].
  simpl. destruct (Py.last_char sound) as [c|] eqn:Hlast; [| reflexivity].
  apply elem_of_cons in H as [<- | H]; [discriminate Hlast |].
  now rewrite IH.
Qed.

(** [count_syllables] raises exactly on a word whose dictionary entry
    has no variant or has an empty phoneme in its first variant, and then
    raises [IndexError]; on a word that is no key it never raises. *)
Theorem count_syllables_raises_iff (word : string) (e : exn) :
  count_syllables dict word = Raise e
  ↔ e = IndexError
    ∧ ∃ variants,
        dict !! Py.lower word = Some variants
        ∧ (variants = [] ∨ ∃ variant rest,
                             variants = variant :: rest ∧ "" ∈ variant).
Proof.
  split.
  - intros H. split; [now apply count_syllables_raise in H |].
    unfold count_syllables in H.
    destruct (dict !! Py.lower word) as [variants|]; [| discriminate].
    exists variants. split; [reflexivity |].
    destruct variants as [|variant rest]; [now left |]. right.
    exists variant, rest. split; [reflexivity |].
    apply variant_ok_false.
    destruct (Spec.variant_ok variant) eqn:Hok; [| reflexivity].
    simpl in H. rewrite stressed_sounds_filter in H by exact Hok.
    discriminate H.
  - intros (-> & variants & Hlook & Hbad).
    unfold count_syllables. rewrite Hlook.
    destruct Hbad as [-> | (variant & rest & -> & Hin)]; [reflexivity |].
    simpl. now rewrite stressed_sounds_empty_phoneme.
Qed.

(** Twice the number of runs is at most the length plus one. *)
Lemma fields_go_count (sep : ascii → bool) (s cur : string) :
  (2 * length (Py.fields_go sep cur s)
   ≤ String.length s + 1 + (if String.eqb cur "" then 0 else 1))%nat.
Proof.
  revert cur. induction s as [|c s IH]; intros cur.
  - destruct cur; simpl; lia.
  - cbn [Py.fields_go]. destruct (sep c).
    + specialize (IH ""). rewrite length_app. simpl in IH.
      destruct cur; simpl; lia.
    + specialize (IH (cur +:+ String c "")).
      assert (Hne : ((cur +:+ String c "") =? "")%string = false)
        by (destruct cur; reflexivity).
      rewrite Hne in IH. simpl. lia.
Qed.

Lemma count_syllables_fallback_range (word : string) :
  dict !! Py.lower word = None →
  ∃ n, count_syllables dict word = Ok n
       ∧ 1 ≤ n ∧ 2 * n ≤ Z.max 2 (Py.len_str word + 1).
Proof.
  intros Hnone. rewrite (count_syllables_fallback dict word Hnone).
  eexists. split; [reflexivity |].
  pose proof (fields_go_count (λ c, negb (Spec.is_vowel c))
                (Py.lower word) "") as Hruns.
  rewrite lower_length in Hruns. simpl in Hruns.
  unfold Spec.vowel_runs, Py.fields, Py.len, Py.len_str. lia.
Qed.

(** On a word that is no key of the dictionary the estimate is between 1
    and half the length of the lower-cased word, rounded up: when the
    lower-cased word has fewer than five characters the word never has
    more than two syllables. *)
Theorem count_syllables_fallback_bound (word : string) :
  dict !! Py.lower word = None →
  ∃ n, count_syllables dict word = Ok n
       ∧ 1 ≤ n
       ∧ 2 * n ≤ Z.max 2 (Py.len_str (Py.lower word) + 1)
       ∧ (Py.len_str (Py.lower word) < 5 → n ≤ 2).
Proof.
  intros Hnone. rewrite (count_syllables_fallback dict word Hnone).
  eexists. split; [reflexivity |].
  pose proof (fields_go_count (λ c, negb (Spec.is_vowel c))
                (Py.lower word) "") as Hruns.
  simpl in Hruns.
  unfold Spec.vowel_runs, Py.fields, Py.len, Py.len_str. lia.
Qed.

End SyllablesMore.

Lemma count_syllables_fallback_bound_witness :
  ∃ n, count_syllables ∅ "area" = Ok n ∧ 1 ≤ n ∧ n ≤ 2.
Proof.
  destruct (count_syllables_fallback_bound ∅ "area")
    as (n & Hn & H1 & _ & H2).
  - apply lookup_empty.
  - exists n. split; [| split; [exact H1 | apply H2; vm_compute; reflexivity]].
    exact Hn.
Defined.

(** ** Rounding is monotone *)

Section RoundingMore.

Local Open Scope Q_scope.

Lemma round_half_even_mono (x y : Q) :
  x <= y → (round_half_even x ≤ round_half_even y)%Z.
Proof.
  intros Hxy. pose proof (Qfloor_resp_le _ _ Hxy) as Hf.
  destruct (Z.eq_dec (Qfloor x) (Qfloor y)) as [Heq | Hne].
  - unfold round_half_even. rewrite Heq.
    assert (Hfrac : x - inject_Z (Qfloor y) <= y - inject_Z (Qfloor y))
      by now apply Qplus_le_l.
    destruct (Qcompare_spec (x - inject_Z (Qfloor y)) (1 # 2))
      as [Hx | Hx | Hx];
      destruct (Qcompare_spec (y - inject_Z (Qfloor y)) (1 # 2))
        as [Hy | Hy | Hy];
      try (destruct (Z.even (Qfloor y)); lia).
    + exfalso. rewrite Hx in Hfrac.
      apply (Qlt_not_le _ _ Hy Hfrac).
    + exfalso. apply (Qlt_not_le _ _ Hx). now rewrite <- Hy.
    + exfalso. apply (Qlt_not_le _ _ Hx).
      apply Qle_trans with (y := y - inject_Z (Qfloor y));
        [exact Hfrac | now apply Qlt_le_weak].
  - assert (Hx : (round_half_even x ≤ Qfloor x + 1)%Z).
    { unfold round_half_even.
      destruct (x - inject_Z (Qfloor x) ?= 1 # 2);
        [destruct (Z.even (Qfloor x)) | |]; lia. }
    assert (Hy : (Qfloor y ≤ round_half_even y)%Z).
    { unfold round_half_even.
      destruct (y - inject_Z (Qfloor y) ?= 1 # 2);
        [destruct (Z.even (Qfloor y)) | |]; lia. }
    lia.
Qed.

Lemma round3_mono (x y : Q) : x <= y → round x 3 <= round y 3.
Proof.
  intros Hxy. unfold round. change (inject_Z (10 ^ 3)) with (inject_Z 1000).
  apply Qmult_le_compat_r; [| discriminate].
  rewrite <- Zle_Qle. apply round_half_even_mono.
  apply Qmult_le_compat_r; [exact Hxy | discriminate].
Qed.

Lemma quotient_mono (a1 a2 b : Z) :
  (0 < b)%Z → (a1 ≤ a2)%Z →
  inject_Z a1 / inject_Z b <= inject_Z a2 / inject_Z b.
Proof.
  intros Hb Ha. unfold Qdiv. apply Qmult_le_compat_r.
  - now rewrite <- Zle_Qle.
  - apply Qinv_le_0_compat. change 0 with (inject_Z 0).
    rewrite <- Zle_Qle. lia.
Qed.

End RoundingMore.

(** ** The analysis in the steps of [main] *)

Section Pipeline.

Variable sent_tokenize : string → list string.
Variable word_tokenize : string → list string.
Variable dict : gmap string (list (list string)).

Local Abbreviation analyze :=
  (analyze_article_text sent_tokenize word_tokenize dict).
Local Abbreviation clean_words text :=
  (filter (λ word, Is_true (Py.isalpha word)) (word_tokenize text)).
Local Abbreviation kept stopwords tokens :=
  (filter (λ token : string, Py.lower token ∉ stopwords) tokens).

Implicit Types (text : string) (positive_words negative_words : gset string).

Lemma score_empty (l : list string) : Spec.score ∅ l = 0.
Proof.
  unfold Spec.score, Py.len. induction l as [|w l IH]; [reflexivity |].
  rewrite filter_cons. destruct (decide (Py.lower w ∈ (∅ : gset string)))
    as [H | H]; [now apply not_elem_of_empty in H | exact IH].
Qed.

(** When the lexicon files cannot be read the analysis still gives the
    full record, with no sentiment word and polarity and subjectivity 0. *)
Theorem unreadable_lexicons_zero_sentiment text :
  sent_tokenize text ≠ [] → clean_words text ≠ [] → Spec.dict_ok dict →
  ∃ r, analyze text (read_word_list None) (read_word_list None)
       = Ok (Full r)
       ∧ POSITIVE_SCORE r = 0 ∧ NEGATIVE_SCORE r = 0
       ∧ (POLARITY_SCORE r == 0)%Q ∧ (SUBJECTIVITY_SCORE r == 0)%Q.
Proof.
  intros HS HW Hdict. rewrite analyze_unfold. cbv zeta.
  rewrite (guard_false sent_tokenize word_tokenize) by assumption.
  rewrite syllable_loop_spec by exact Hdict. cbn [mbind res_bind].
  eexists. split; [reflexivity |].
  cbn [read_word_list metric_record POSITIVE_SCORE NEGATIVE_SCORE
       POLARITY_SCORE SUBJECTIVITY_SCORE].
  rewrite !score_empty. repeat split; reflexivity.
Qed.

Lemma clean_words_nonempty (words : list string) :
  Forall (λ w, w ≠ "")
         (filter (λ word, Is_true (Py.isalpha word)) words).
Proof.
  apply Forall_forall. intros w Hw.
  apply list_elem_of_filter in Hw as [Hw _]. now destruct w.
Qed.

Lemma total_chars_loop (l : list string) (a : Z) :
  Forall (λ w, w ≠ "") l →
  a + Py.len l ≤ fold_left (λ acc word, acc + Py.len_str word) l a.
Proof.
  intros Hl. revert a. unfold Py.len.
  induction Hl as [|w l Hw _ IH]; intros a; simpl; [lia |].
  specialize (IH (a + Py.len_str w)).
  assert (1 ≤ Py.len_str w) by (destruct w; [congruence |];
    unfold Py.len_str; simpl; lia).
  lia.
Qed.

(** Without dictionary entries every word adds between one syllable and
    as many as it has characters. *)
Lemma syllable_loop_fallback (l : list string) (c t c' t' a : Z) :
  Forall (λ w, w ≠ "") l →
  Forall (λ w, dict !! Py.lower w = None) l →
  syllable_loop dict l (c, t) = Ok (c', t') →
  Py.len l ≤ t' - t
  ∧ t' - t ≤ fold_left (λ acc word, acc + Py.len_str word) l a - a.
Proof.
  intros Hne Hnone. revert c t a. unfold Py.len.
  induction l as [|w l IH]; intros c t a; simpl.
  - intros [= <- <-]. lia.
  - apply Forall_cons in Hne as [Hw Hne].
    apply Forall_cons in Hnone as [Hd Hnone].
    destruct (count_syllables_fallback_range dict w Hd)
      as (n & -> & Hn1 & Hn2).
    cbn [mbind res_bind]. intros H.
    apply (IH Hne Hnone _ _ (a + Py.len_str w)) in H.
    assert (1 ≤ Py.len_str w) by (destruct w; [congruence |];
      unfold Py.len_str; simpl; lia).
    lia.
Qed.

(** In a full record the average word length is at least 1; when no
    clean word is a key of the pronunciation dictionary (the dictionary is
    missing, say) the syllables per word are at least 1 and at most the
    average word length. *)
Theorem analyze_lengths text positive_words negative_words r :
  analyze_article_text sent_tokenize word_tokenize dict
    text positive_words negative_words = Ok (Full r) →
  1 ≤ WORD_COUNT r
  ∧ (1 <= AVG_WORD_LENGTH r)%Q
  ∧ (Forall (λ w, dict !! Py.lower w = None) (clean_words text) →
     (1 <= SYLLABLE_PER_WORD r <= AVG_WORD_LENGTH r)%Q).
Proof.
  rewrite analyze_unfold. cbv zeta.
  destruct ((Py.len (clean_words text) =? 0)
            || (Py.len (sent_tokenize text) =? 0)) eqn:G; [discriminate |].
  apply orb_false_iff in G as [GW _]. apply Z.eqb_neq in GW.
  pose proof (len_nonneg (clean_words text)) as HW0.
  pose proof (clean_words_nonempty (word_tokenize text)) as Hne.
  pose proof (total_chars_loop _ 0 Hne) as Hchars.
  fold (total_chars (clean_words text)) in Hchars.
  destruct (syllable_loop dict (clean_words text) (0, 0)) as [[C T]|e]
    eqn:Hloop; [| discriminate].
  cbn [mbind res_bind]. intros [= <-].
  cbn [metric_record WORD_COUNT AVG_WORD_LENGTH SYLLABLE_PER_WORD].
  split; [lia |]. split.
  - apply (round3_ge _ 1), quotient_ge; lia.
  - intros Hnone.
    destruct (syllable_loop_fallback _ _ _ _ _ 0 Hne Hnone Hloop)
      as [Hlow Hhigh].
    fold (total_chars (clean_words text)) in Hhigh. split.
    + apply (round3_ge _ 1), quotient_ge; lia.
    + apply round3_mono, quotient_mono; lia.
Qed.

Lemma remove_all_stopwords text (stopwords : list string) :
  (∀ token, token ∈ Py.split text → Py.lower token ∈ stopwords) →
  remove_stopwords_from_text text stopwords = "".
Proof.
  intros H. rewrite remove_stopwords_unfold.
  destruct (kept stopwords (Py.split text)) as [|t l] eqn:Hf; [reflexivity |].
  assert (Ht : t ∈ kept stopwords (Py.split text))
    by (rewrite Hf; apply list_elem_of_here).
  apply list_elem_of_filter in Ht as [Hn Hin].
  exfalso. now apply Hn, H.
Qed.

(** An article of which every token is a stopword is cleaned to the
    empty text and gets the empty record (the tokenizers finding no word
    or no sentence in the empty text). *)
Theorem only_stopwords_insufficient
    (stopwords : list string) positive_words negative_words original_text :
  word_tokenize "" = [] ∨ sent_tokenize "" = [] →
  (∀ token, token ∈ Py.split original_text → Py.lower token ∈ stopwords) →
  clean_and_analyze sent_tokenize word_tokenize dict stopwords
    positive_words negative_words original_text = Ok Insufficient.
Proof.
  intros Hempty Hall. unfold clean_and_analyze.
  rewrite remove_all_stopwords by exact Hall.
  rewrite analyze_unfold. cbv zeta.
  rewrite (guard_true sent_tokenize word_tokenize); [reflexivity |].
  destruct Hempty as [H | H]; [right | left]; [| exact H].
  now rewrite H.
Qed.

(** The personal pronouns that [main] reports are counted after the
    stopwords are removed: they are the pronouns of the tokens that
    survive, token by token, so at most those of the original text; a
    token whose lower-cased form is a stopword adds none. *)
Theorem pronouns_after_cleaning
    (stopwords : list string) positive_words negative_words original_text r :
  clean_and_analyze sent_tokenize word_tokenize dict stopwords
    positive_words negative_words original_text = Ok (Full r) →
  PERSONAL_PRONOUNS r = pronouns_in (kept stopwords (Py.split original_text))
  ∧ Py.len (Re.findall original_text)
    = pronouns_in (Py.split original_text)
  ∧ 0 ≤ PERSONAL_PRONOUNS r ≤ Py.len (Re.findall original_text).
Proof.
  unfold clean_and_analyze. intros H.
  apply analyze_full_inv in H as (C & T & -> & _).
  cbn [metric_record PERSONAL_PRONOUNS].
  rewrite !findall_personal_pronouns.
  rewrite remove_stopwords_unfold, personal_pronouns_join.
  rewrite (personal_pronouns_split original_text).
  split; [reflexivity |]. split; [reflexivity |].
  apply pronouns_in_filter.
Qed.

(** The file of an article has the tokens of the title followed by those
    of the text, so the clean text is the surviving tokens of the title
    and then of the text, single-spaced. *)
Theorem article_file_tokens (title text : string) (stopwords : list string) :
  Py.split (article_file title text) = (Py.split title ++ Py.split text)%list
  ∧ remove_stopwords_from_text (article_file title text) stopwords
    = Py.join " " (kept stopwords (Py.split title)
                   ++ kept stopwords (Py.split text)).
Proof.
  assert (Hsplit : Py.split (article_file title text)
                   = (Py.split title ++ Py.split text)%list).
  { unfold Py.split, Py.fields, article_file.
    change (title +:+ Py.newline +:+ Py.newline +:+ text)
      with (title +:+ String "010" (String "010" text)).
    rewrite fields_go_sep by reflexivity. f_equal. }
  split; [exact Hsplit |].
  now rewrite remove_stopwords_unfold, Hsplit, filter_app.
Qed.

End Pipeline.

Lemma unreadable_lexicons_zero_sentiment_witness :
  ∃ r, analyze_article_text Sample.sent_tokenize Sample.word_tokenize ∅
         "Good day." (read_word_list None) (read_word_list None)
       = Ok (Full r)
       ∧ POSITIVE_SCORE r = 0 ∧ NEGATIVE_SCORE r = 0
       ∧ (POLARITY_SCORE r == 0)%Q ∧ (SUBJECTIVITY_SCORE r == 0)%Q.
Proof.
  apply (unreadable_lexicons_zero_sentiment
           Sample.sent_tokenize Sample.word_tokenize ∅ "Good day.").
  - vm_compute. discriminate.
  - vm_compute. discriminate.
  - apply map_Forall_empty.
Defined.

Lemma analyze_lengths_witness :
  ∃ r, analyze_article_text Sample.sent_tokenize Sample.word_tokenize ∅
         "The cat sat." ∅ ∅ = Ok (Full r)
       ∧ (1 <= SYLLABLE_PER_WORD r <= AVG_WORD_LENGTH r)%Q.
Proof.
  destruct (analyze_article_text Sample.sent_tokenize Sample.word_tokenize ∅
              "The cat sat." ∅ ∅) as [[|r]|e] eqn:E;
    try (vm_compute in E; discriminate E).
  exists r. split; [reflexivity |].
  apply (analyze_lengths _ _ _ _ _ _ r E).
  apply Forall_forall. intros w _. apply lookup_empty.
Defined.

Lemma only_stopwords_insufficient_witness :
  clean_and_analyze Sample.sent_tokenize Sample.word_tokenize ∅
    ["the"; "and"] ∅ ∅ "The  and THE" = Ok Insufficient.
Proof.
  apply only_stopwords_insufficient.
  - left. reflexivity.
  - intros token Hin. vm_compute in Hin.
    repeat (apply elem_of_cons in Hin as [-> | Hin]);
      [| | | now apply not_elem_of_nil in Hin];
      refine (bool_decide_unpack _ _); vm_compute; exact I.
Defined.

Lemma pronouns_after_cleaning_witness :
  ∃ r, clean_and_analyze Sample.sent_tokenize Sample.word_tokenize ∅
         ["we"; "us"] ∅ ∅ "We saw us. We, the people" = Ok (Full r)
       ∧ PERSONAL_PRONOUNS r = 2.
Proof.
  destruct (clean_and_analyze Sample.sent_tokenize Sample.word_tokenize ∅
              ["we"; "us"] ∅ ∅ "We saw us. We, the people")
    as [[|r]|e] eqn:E; try (vm_compute in E; discriminate E).
  exists r. split; [reflexivity |].
  rewrite (proj1 (pronouns_after_cleaning _ _ _ _ _ _ _ r E)).
  vm_compute. reflexivity.
Defined.

(** ** [download_article] *)

Section Download.

(** The paragraphs that the loop keeps, as it keeps them. *)
Local Abbreviation kept_paragraphs ps :=
  (filter (λ t : string, 20 < Py.len_str t) (map Py.strip ps)).
Local Abbreviation lines_of ts :=
  (String.concat "" (map (λ t : string, t +:+ Py.newline) ts)).





(** The function makes one to three requests, one after the other while
    they raise a [RequestException], and none after the first that does
    not; it returns a title and a text exactly when the last request made
    gave a response that could be parsed. *)
Theorem download_article_retries (net : nat → outcome) :
  let n := snd (download_article net) in
  (1 ≤ n ≤ 3)%nat
  ∧ (∀ k, (k < n - 1)%nat → net k = RequestException)
  ∧ ((n < 3)%nat → net (n - 1)%nat ≠ RequestException)
  ∧ (is_Some (fst (download_article net))
     ↔ ∃ p, net (n - 1)%nat = Response (Some p)).
Proof.
  unfold download_article. cbn [seq max_retries request_loop Nat.eqb Nat.sub].
  destruct (net 0%nat) as [[p0|]| |] eqn:H0; cbn [fst snd Nat.sub];
    try (repeat split; try lia; try congruence;
         try (intros k Hk; lia);
         try (intros [x Hx]; discriminate Hx);
         try (intros [x Hx]; congruence); eauto; fail).
  destruct (net 1%nat) as [[p1|]| |] eqn:H1; cbn [fst snd Nat.sub];
    try (repeat split; try lia; try congruence;
         try (intros k Hk; assert (k = 0%nat) as -> by lia; exact H0);
         try (intros [x Hx]; discriminate Hx);
         try (intros [x Hx]; congruence); eauto; fail).
  destruct (net 2%nat) as [[p2|]| |] eqn:H2; cbn [fst snd Nat.sub];
    repeat split; try lia; try congruence;
    try (intros k Hk; destruct k as [|[|k]]; [exact H0 | exact H1 | lia]);
    try (intros [x Hx]; discriminate Hx);
    try (intros [x Hx]; congruence); eauto.
Qed.



End Download.

(** ** The matches of [re.findall] *)

Section Matches.

Lemma match_at_pronoun (prev : option ascii) (s : string) (n : nat) :
  Re.match_at prev s = Some n →
  ∃ lit, lit ∈ Re.alternatives ∧ n = String.length lit
         ∧ Py.lower (substring 0 n s) = Py.lower lit.
Proof.
  rewrite match_at_spec.
  destruct (Re.at_boundary prev (Py.head_char s)); [| discriminate].
  destruct (List.find (λ lit, Spec.word_ends_at lit s) Re.alternatives)
    as [lit|] eqn:Hfind; [| discriminate].
  simpl. intros [= <-]. apply List.find_some in Hfind as [Hin Hends].
  exists lit. split; [now apply list_elem_of_In |]. split; [reflexivity |].
  unfold Spec.word_ends_at in Hends.
  apply andb_true_iff in Hends as [Heq _]. now apply String.eqb_eq in Heq.
Qed.

Lemma findall_go_shape (s : string) (prev : option ascii) (skip : nat) :
  Forall (λ m, (Py.len_str m = 1 ∨ Py.len_str m = 2 ∨ Py.len_str m = 4)
               ∧ Py.all_chars Re.is_word_char m = true)
         (Re.findall_go prev s skip).
Proof.
  revert prev skip. induction s as [|c s IH]; intros prev skip;
    [constructor |].
  cbn [Re.findall_go]. destruct skip as [|k]; [| apply IH].
  destruct (Re.match_at prev (String c s)) as [n|] eqn:Hm; [| apply IH].
  constructor; [| apply IH].
  apply match_at_pronoun in Hm as (lit & Hin & _ & Heq).
  unfold Py.len_str.
  rewrite <- word_chars_lower, <- (lower_length (substring _ _ _)), Heq.
  unfold Re.alternatives in Hin.
  repeat (apply elem_of_cons in Hin as [-> | Hin]);
    [| | | | | now apply not_elem_of_nil in Hin]; vm_compute; tauto.
Qed.

Lemma substring_length_le (n : nat) (s : string) :
  (String.length (substring 0 n s) ≤ String.length s)%nat.
Proof.
  revert s. induction n as [|n IH]; intros [|c s]; simpl; try lia.
  specialize (IH s). lia.
Qed.

(** The matches lie one after the other in the text: their lengths add
    up to the length of the text at most. *)
Lemma findall_go_disjoint (s : string) (prev : option ascii) (skip : nat) :
  (foldr (λ m acc, String.length m + acc) 0 (Re.findall_go prev s skip)
   + skip ≤ Nat.max skip (String.length s))%nat.
Proof.
  revert prev skip. induction s as [|c s IH]; intros prev skip;
    [simpl; lia |].
  cbn [Re.findall_go]. destruct skip as [|k].
  - destruct (Re.match_at prev (String c s)) as [n|] eqn:Hm.
    + pose proof (match_at_word _ _ _ Hm) as [Hn _].
      apply match_at_pronoun in Hm as (lit & _ & -> & Heq).
      assert (Hlen : String.length (substring 0 (String.length lit)
                                      (String c s)) = String.length lit).
      { rewrite <- (lower_length (substring _ _ _)), Heq.
        apply lower_length. }
      pose proof (substring_length_le (String.length lit) (String c s))
        as Hle.
      rewrite Hlen in Hle. cbn [foldr]. rewrite Hlen.
      specialize (IH (Some c) (String.length lit - 1)%nat).
      simpl in Hle |- *. lia.
    + specialize (IH (Some c) 0%nat). simpl. lia.
  - specialize (IH (Some c) k). simpl. lia.
Qed.

(** Every string that [re.findall] returns has one, two or four
    characters, all of them word characters; the matches do not overlap,
    so that their lengths add up to the length of the text at most, and
    there are at most as many as the text has characters. *)
Theorem findall_matches_shape (text : string) :
  Forall (λ m, (Py.len_str m = 1 ∨ Py.len_str m = 2 ∨ Py.len_str m = 4)
               ∧ Py.all_chars Re.is_word_char m = true)
         (Re.findall text)
  ∧ foldr (λ m acc, Py.len_str m + acc) 0 (Re.findall text)
    ≤ Py.len_str text
  ∧ Py.len (Re.findall text) ≤ Py.len_str text.
Proof.
  split; [apply findall_go_shape |]. split.
  - pose proof (findall_go_disjoint text None 0) as H.
    fold (Re.findall text) in H. unfold Py.len_str.
    assert (Hsum : ∀ l : list string,
              foldr (λ m acc, Z.of_nat (String.length m) + acc) 0 l
              = Z.of_nat (foldr (λ m acc, String.length m + acc)%nat 0%nat l)).
    { induction l as [|m l IHl]; [reflexivity |]. simpl. rewrite IHl. lia. }
    rewrite Hsum. lia.
  - unfold Py.len, Py.len_str, Re.findall. apply inj_le.
    generalize (@None ascii) at 1. generalize 0%nat.
    induction text as [|c s IH]; intros skip prev; [reflexivity |].
    cbn [Re.findall_go]. destruct skip as [|k].
    + destruct (Re.match_at prev (String c s)); simpl;
        [apply le_n_S |]; (etransitivity; [apply IH | lia]).
    + simpl. etransitivity; [apply IH | lia].
Qed.

End Matches.

(** ** The stopword files and the cleaning *)

Section StopwordFiles.

Implicit Types (folder : list (string * text_file)) (text : string).

Lemma read_stopwords_elem folder (stopwords : list string) (w : string) :
  read_stopwords folder = Some stopwords →
  w ∈ stopwords
  ↔ ∃ name file content,
      stopword_source folder name file content ∧ w ∈ Py.split content.
Proof.
  unfold read_stopwords.
  destruct (stopwords_loop folder []) as [all|] eqn:Hloop; [| discriminate].
  cbn [mbind option_bind]. intros [= <-].
  rewrite elem_of_elements, elem_of_list_to_set.
  rewrite (stopwords_loop_members _ _ _ w Hloop). split.
  - intros [H | H]; [now apply not_elem_of_nil in H | exact H].
  - now right.
Qed.

Lemma filter_all {A} (P : A → Prop) `{∀ x, Decision (P x)} (l : list A) :
  (∀ x, x ∈ l → P x) → filter P l = l.
Proof.
  induction l as [|x l IH]; intros Hall; [reflexivity |].
  rewrite filter_cons, decide_True by apply Hall, list_elem_of_here.
  f_equal. apply IH. intros y Hy. now apply Hall, list_elem_of_further.
Qed.

(** With the stopwords of a folder, a token of the text is removed
    exactly when its lower-cased form is a token of one of the text files
    of the folder. *)
Theorem stopword_files_remove folder (stopwords : list string) text
    (token : string) :
  read_stopwords folder = Some stopwords →
  token ∈ Py.split text →
  token ∉ Py.split (remove_stopwords_from_text text stopwords)
  ↔ ∃ name file content,
      stopword_source folder name file content
      ∧ Py.lower token ∈ Py.split content.
Proof.
  intros Hread Hin.
  rewrite <- (read_stopwords_elem folder stopwords _ Hread).
  rewrite split_remove_stopwords, list_elem_of_filter. split.
  - intros Hn. destruct (decide (Py.lower token ∈ stopwords)) as [H | H];
      [exact H |]. exfalso. apply Hn. now split.
  - intros H [Hn _]. now apply Hn.
Qed.

Lemma stopword_files_remove_witness :
  "The" ∉ Py.split (remove_stopwords_from_text "The cat"
                      ["of"; "we"; "us"; "AND"; "the"]).
Proof.
  apply (stopword_files_remove Demo.folder
           ["of"; "we"; "us"; "AND"; "the"] "The cat" "The").
  - vm_compute. reflexivity.
  - vm_compute. apply list_elem_of_here.
  - exists "generic.txt", Demo.generic,
      ("the  AND" +:+ Py.newline +:+ "of the").
    split; [split; [apply list_elem_of_here | split; reflexivity] |].
    vm_compute. apply list_elem_of_here.
Defined.

(** Stopword files that are not in lower case remove nothing: when
    [str.lower] changes every token of the text files of the folder, the
    clean text is the text with its whitespace normalised. *)
Theorem changed_case_stopword_files_remove_nothing folder
    (stopwords : list string) text :
  read_stopwords folder = Some stopwords →
  (∀ name file content,
     stopword_source folder name file content →
     Forall (λ w, Py.lower w ≠ w) (Py.split content)) →
  remove_stopwords_from_text text stopwords = Py.join " " (Py.split text).
Proof.
  intros Hread Hchanged. rewrite remove_stopwords_unfold. f_equal.
  apply filter_all. intros token _ Hin.
  apply (read_stopwords_elem folder stopwords _ Hread) in Hin
    as (name & file & content & Hsrc & Hw).
  specialize (Hchanged name file content Hsrc).
  rewrite Forall_forall in Hchanged.
  apply (Hchanged _ Hw). apply lower_idem.
Qed.

End StopwordFiles.

Lemma changed_case_stopword_files_remove_nothing_witness :
  ∃ stopwords,
    read_stopwords
      [("caps.txt", {| read_utf8 := Some "THE And";
                       read_latin1 := Some "THE And" |})]
    = Some stopwords
    ∧ remove_stopwords_from_text "The  cat and the dog" stopwords
      = "The cat and the dog".
Proof.
  destruct (read_stopwords
              [("caps.txt", {| read_utf8 := Some "THE And";
                               read_latin1 := Some "THE And" |})])
    as [stopwords|] eqn:E; [| vm_compute in E; discriminate E].
  exists stopwords. split; [reflexivity |].
  rewrite (changed_case_stopword_files_remove_nothing _ stopwords _ E);
    [vm_compute; reflexivity |].
  intros name file content (Hin & _ & Hd).
  apply list_elem_of_singleton in Hin. injection Hin as -> ->.
  vm_compute in Hd. injection Hd as <-.
  repeat (constructor; [intros H; vm_compute in H; discriminate H |]).
  constructor.
Defined.
